(** * The Ring location controller of [plugins/ring/src/location.ts]

    A shallow embedding of [RingLocationDevice]: the security-mode
    reconciler ([updateLocationMode] and the constructor that wires it to the
    two feeds), device discovery ([discoverDevices]), the memoised device
    cache ([getDevice]) and the arm/disarm entry points.

    JavaScript objects become records, [Map]s become [JsMap.t] (a [gmap] for
    the entries plus the object's own properties), promises that the vendor
    client settles later become [Pending] items that an [Event] settles. *)

From stdpp Require Import base strings list gmap.

#[local] Set Warnings "-clear-no-such-hyp".

(** ** Values of the host SDK *)

Module ScryptedInterface.
Inductive t :=
  | Camera | MotionSensor | RTCSignalingChannel
  | VideoCamera | Intercom | VideoClips
  | Battery | BinarySensor | DeviceProvider
  | TamperSensor | EntrySensor | FloodSensor | Lock.
End ScryptedInterface.

Module ScryptedDeviceType.
Inductive t := Camera | Doorbell | Sensor | Lock.
End ScryptedDeviceType.

Inductive SecuritySystemMode := Disarmed | HomeArmed | AwayArmed | NightArmed.

#[export] Instance SecuritySystemMode_eq_dec : EqDecision SecuritySystemMode.
Proof. solve_decision. Defined.

(** TypeScript erases the enum type: at run time the host can hand
    [armSecuritySystem] any value.  [OffEnum v] is a value that is none of the
    four members of [SecuritySystemMode]. *)
Inductive ModeValue :=
| Member (m : SecuritySystemMode)
| OffEnum (v : string).

Record SecuritySystemState := {
  mode : SecuritySystemMode;
  triggered : bool;
  supportedModes : list SecuritySystemMode;
}.

Module DeviceInformation.
Record t := {
    model : string;
    manufacturer : string;
    firmware : option string;
    serialNumber : string;
  }.
End DeviceInformation.

Module Device.
Record t := {
    info : DeviceInformation.t;
    providerNativeId : string;
    nativeId : string;
    name : string;
    type : ScryptedDeviceType.t;
    interfaces : list ScryptedInterface.t;
  }.
End Device.

(** The argument of [deviceManager.onDevicesChanged]. *)
Module DeviceManifest.
Record t := {
    providerNativeId : string;
    devices : list Device.t;
  }.
End DeviceManifest.

(** ** Records of the vendor client

    The declarations of [RingCamera], [RingDevice] and [RingDeviceData] live
    in the vendor library; the records below hold the fields that
    [location.ts] reads.  [id] holds the text that [id.toString()] yields. *)

Module CameraData.
  (** Modelled from the spec: the declaration of the camera's [data] is not
      part of the sources at hand.  The spec gives every vendor record a
      status flag, so [status] is kept here although [location.ts] never
      reads it on a camera. *)
Record t := {
    kind : string;
    firmware_version : string;
    device_id : string;
    status : option string;
  }.
End CameraData.

Module RingCamera.
Record t := {
    id : string;
    name : string;
    model : string;
    deviceType : string;
    isRingEdgeEnabled : bool;
    operatingOnBattery : bool;
    isDoorbot : bool;
    hasLight : bool;
    hasSiren : bool;
    data : CameraData.t;
  }.
End RingCamera.

Module RingDeviceData.
Record t := {
    status : option string;
    deviceType : string;
    batteryStatus : string;
    serialNumber : option string;
    faulted : option bool;
  }.
End RingDeviceData.

Module RingDevice.
Record t := {
    id : string;
    name : string;
    data : RingDeviceData.t;
  }.
  (** [get deviceType()] of the vendor class returns [data.deviceType]. *)
Definition deviceType (d : t) : string := RingDeviceData.deviceType (data d).
End RingDevice.

(** A value of [RingDevice | RingCamera], as stored in [locationDevices]. *)
Inductive LocationRecord :=
| IsCamera (c : RingCamera.t)
| IsDevice (d : RingDevice.t).

(** The members of the vendor enum [RingDeviceType] that [location.ts]
    names.  Their string values are declared in the vendor library, so they
    are a parameter of the development. *)
Module RingDeviceType.
Record t := {
    ContactSensor : string;
    RetrofitZone : string;
    TiltSensor : string;
    MotionSensor : string;
    FloodFreezeSensor : string;
    WaterSensor : string;
  }.
End RingDeviceType.

(** ** JavaScript [Map] objects

    A [Map] keeps its entries in an internal slot that only the [Map]
    methods reach.  Like every object it also has own properties, and
    [Object.values] enumerates those own properties, never the entries. *)
Module JsMap.
Section JsMap.
Context {V : Type}.

Record t := mk {
    entries : gmap string V;
    ownProperties : list (string * V);
  }.

Definition new : t := {| entries := ∅; ownProperties := [] |}.

Definition clear (m : t) : t :=
  {| entries := ∅; ownProperties := ownProperties m |}.

Definition set (k : string) (v : V) (m : t) : t :=
  {| entries := <[k := v]> (entries m); ownProperties := ownProperties m |}.

Definition get (k : string) (m : t) : option V := entries m !! k.

Definition has (k : string) (m : t) : bool :=
  match entries m !! k with Some _ => true | None => false end.

(** [Object.values(m)]: the values of the own enumerable properties. *)
Definition Object_values (m : t) : list V := (ownProperties m).*2.
End JsMap.
Arguments t : clear implicits.
End JsMap.

(** ** String helpers of the JavaScript runtime *)

(** [s.endsWith(suffix)] *)
Definition endsWith (s suffix : string) : bool :=
  let n := String.length s in
  let k := String.length suffix in
  if decide (k ≤ n)%nat
  then String.eqb (String.substring (n - k) k s) suffix
  else false.

(** ** Regular expressions *)

Module RegExp.
Import Stdlib.Strings.Ascii.

(** The part of the syntax of regular expressions that line 198 uses. *)
Inductive t :=
| AssertStart
| AssertEnd
| Literal (c : ascii)
| Sequence (r1 r2 : t)
| Disjunction (r1 r2 : t).

(** The positions at which a match of [r] that starts at [pos] can end.
    Without flags, [^] holds at the start of the input only and [$] at its
    end only. *)
Fixpoint matchAt (r : t) (input : list ascii) (pos : nat) : list nat :=
  match r with
  | AssertStart => if decide (pos = 0) then [pos] else []
  | AssertEnd => if decide (pos = length input) then [pos] else []
  | Literal c =>
      match input !! pos with
      | Some c' => if Ascii.eqb c c' then [S pos] else []
      | None => []
      end
  | Sequence r1 r2 => matchAt r1 input pos ≫= matchAt r2 input
  | Disjunction r1 r2 => matchAt r1 input pos ++ matchAt r2 input pos
  end.

Definition matchesAt (r : t) (input : list ascii) (pos : nat) : bool :=
  match matchAt r input pos with [] => false | _ => true end.

(** [r.test(s)]: there is a match that starts at some position of [s]. *)
Definition test (r : t) (s : string) : bool :=
  let input := String.list_ascii_of_string s in
  existsb (matchesAt r input) (seq 0 (S (length input))).

(** [/^lock($|\.)/] *)
Definition lockPattern : t :=
  Sequence AssertStart
    (Sequence (Literal "l")
       (Sequence (Literal "o")
          (Sequence (Literal "c")
             (Sequence (Literal "k")
                (Disjunction AssertEnd (Literal ".")))))).
End RegExp.

(** [/^lock($|\.)/.test(s)] *)
Definition matchesLock (s : string) : bool :=
  RegExp.test RegExp.lockPattern s.

(** ** The controller and the world around it *)

(** [onLocationMode] holds what the observable of that name hands,
    synchronously, to a subscriber at the moment it subscribes: nothing for a
    plain subject, the buffered modes for a replaying one.  Later emissions
    are events. *)
Module Location.
Record t := {
    id : string;
    cameras : list RingCamera.t;
    hasAlarmBaseStation : bool;
    onLocationMode : list string;
  }.
End Location.

(** [plugin.settingsStorage.values], read afresh at every use. *)
Record RingPlugin := {
  nightModeBypassAlarmState : string;
}.

(** A reference to an object built by [getDevice]: its address in [heap]. *)
Definition Ref := nat.

(** The fields of a [RingLocationDevice]. *)
Record RingLocationDevice := {
  plugin : RingPlugin;
  location : Location.t;
  devices : JsMap.t Ref;
  locationDevices : JsMap.t LocationRecord;
  securitySystemState : option SecuritySystemState;
}.

Definition set_devices (m : JsMap.t Ref) (this : RingLocationDevice) :=
  {| plugin := plugin this; location := location this; devices := m;
     locationDevices := locationDevices this;
     securitySystemState := securitySystemState this |}.

Definition set_locationDevices (m : JsMap.t LocationRecord)
    (this : RingLocationDevice) :=
  {| plugin := plugin this; location := location this; devices := devices this;
     locationDevices := m;
     securitySystemState := securitySystemState this |}.

Definition set_securitySystemState (v : option SecuritySystemState)
    (this : RingLocationDevice) :=
  {| plugin := plugin this; location := location this; devices := devices this;
     locationDevices := locationDevices this;
     securitySystemState := v |}.

Definition set_plugin (p : RingPlugin) (this : RingLocationDevice) :=
  {| plugin := p; location := location this; devices := devices this;
     locationDevices := locationDevices this;
     securitySystemState := securitySystemState this |}.

(** ** The reconciler's transition function (constructor, lines 71-95) *)

Definition LocationMode := string.

Definition updateLocationMode (f : LocationMode) (this : RingLocationDevice)
  : RingLocationDevice :=
  let mode :=
    if String.eqb f "away" then AwayArmed
    else if String.eqb f "home" then HomeArmed
    else Disarmed in
  let supportedModes := [Disarmed; AwayArmed; HomeArmed] in
  let supportedModes :=
    if negb (String.eqb (nightModeBypassAlarmState (plugin this)) "Disabled")
    then supportedModes ++ [NightArmed]
    else supportedModes in
  set_securitySystemState
    (Some {| mode := mode; triggered := false;
             supportedModes := supportedModes |})
    this.

(** ** Discovery (lines 124-232) *)

(** Lines 130-149: the interface list of a camera. *)
Definition cameraInterfaces (camera : RingCamera.t) : list ScryptedInterface.t :=
  let interfaces :=
    [ScryptedInterface.Camera; ScryptedInterface.MotionSensor;
     ScryptedInterface.RTCSignalingChannel] in
  let interfaces :=
    if negb (RingCamera.isRingEdgeEnabled camera)
    then interfaces ++ [ScryptedInterface.VideoCamera;
                        ScryptedInterface.Intercom;
                        ScryptedInterface.VideoClips]
    else interfaces in
  let interfaces :=
    if RingCamera.operatingOnBattery camera
    then interfaces ++ [ScryptedInterface.Battery] else interfaces in
  let interfaces :=
    if RingCamera.isDoorbot camera
    then interfaces ++ [ScryptedInterface.BinarySensor] else interfaces in
  let interfaces :=
    if RingCamera.hasLight camera
    then interfaces ++ [ScryptedInterface.DeviceProvider] else interfaces in
  let interfaces :=
    if RingCamera.hasSiren camera
    then interfaces ++ [ScryptedInterface.DeviceProvider] else interfaces in
  interfaces.

(** Lines 150-162: the descriptor of a camera. *)
Definition cameraDevice (location : Location.t) (camera : RingCamera.t)
  : Device.t :=
  {| Device.info :=
       {| DeviceInformation.model :=
            RingCamera.model camera +:+ " (" +:+
            CameraData.kind (RingCamera.data camera) +:+ ")";
          DeviceInformation.manufacturer := "Ring";
          DeviceInformation.firmware :=
            Some (CameraData.firmware_version (RingCamera.data camera));
          DeviceInformation.serialNumber :=
            CameraData.device_id (RingCamera.data camera) |};
     Device.providerNativeId := Location.id location;
     Device.nativeId := RingCamera.id camera;
     Device.name := RingCamera.name camera;
     Device.type :=
       if RingCamera.isDoorbot camera
       then ScryptedDeviceType.Doorbell else ScryptedDeviceType.Camera;
     Device.interfaces := cameraInterfaces camera |}.

(** What the body of the second loop decides for one record before it
    builds the descriptor: one of the two [continue]s, or the identifier,
    type and interfaces set by the [switch]. *)
Inductive Branch :=
| ContinueDisabled
| ContinueUnsupported
| Break (nativeId : string) (type : ScryptedDeviceType.t)
  (interfaces : list ScryptedInterface.t).

Section Discovery.
Variable vendor : RingDeviceType.t.

(** Lines 174-207. *)
Definition switchDeviceType (locationDevice : RingDevice.t) : Branch :=
  let data := RingDevice.data locationDevice in
  if bool_decide (RingDeviceData.status data = Some "disabled")
  then ContinueDisabled
  else
    let deviceType := RingDeviceData.deviceType data in
    if String.eqb deviceType (RingDeviceType.ContactSensor vendor)
       || String.eqb deviceType (RingDeviceType.RetrofitZone vendor)
       || String.eqb deviceType (RingDeviceType.TiltSensor vendor)
    then Break (RingDevice.id locationDevice +:+ "-sensor")
               ScryptedDeviceType.Sensor
               [ScryptedInterface.TamperSensor; ScryptedInterface.EntrySensor]
    else if String.eqb deviceType (RingDeviceType.MotionSensor vendor)
    then Break (RingDevice.id locationDevice +:+ "-sensor")
               ScryptedDeviceType.Sensor
               [ScryptedInterface.TamperSensor; ScryptedInterface.MotionSensor]
    else if String.eqb deviceType (RingDeviceType.FloodFreezeSensor vendor)
            || String.eqb deviceType (RingDeviceType.WaterSensor vendor)
    then Break (RingDevice.id locationDevice +:+ "-sensor")
               ScryptedDeviceType.Sensor
               [ScryptedInterface.TamperSensor; ScryptedInterface.FloodSensor]
    else if matchesLock deviceType
    then Break (RingDevice.id locationDevice +:+ "-lock")
               ScryptedDeviceType.Lock
               [ScryptedInterface.Lock]
    else ContinueUnsupported.

(** Lines 209-223. *)
Definition genericDevice (location : Location.t) (locationDevice : RingDevice.t)
    (nativeId : string) (type : ScryptedDeviceType.t)
    (interfaces : list ScryptedInterface.t) : Device.t :=
  let data := RingDevice.data locationDevice in
  let interfaces :=
    if negb (String.eqb (RingDeviceData.batteryStatus data) "none")
    then interfaces ++ [ScryptedInterface.Battery] else interfaces in
  {| Device.info :=
       {| DeviceInformation.model := RingDeviceData.deviceType data;
          DeviceInformation.manufacturer := "Ring";
          DeviceInformation.firmware := None;
          DeviceInformation.serialNumber :=
            default "Unknown" (RingDeviceData.serialNumber data) |};
     Device.providerNativeId := Location.id location;
     Device.nativeId := nativeId;
     Device.name := RingDevice.name locationDevice;
     Device.type := type;
     Device.interfaces := interfaces |}.

(** The descriptor that discovery derives from one generic record, if any. *)
Definition classify (location : Location.t) (locationDevice : RingDevice.t)
  : option Device.t :=
  match switchDeviceType locationDevice with
  | Break nativeId type interfaces =>
      Some (genericDevice location locationDevice nativeId type interfaces)
  | _ => None
  end.
End Discovery.

(** ** Objects built by [getDevice], calls that leave the controller *)

Inductive DeviceClass := RingSensor | RingLock | RingCameraDevice.

Record Instance := {
  class : DeviceClass;
  instanceNativeId : string;
  device : option LocationRecord;
}.

(** The commands of the vendor's location handle; [bypass] is [None] when the
    command is called without an argument. *)
Inductive VendorCall :=
| armAway (bypass : option (list string))
| armHome (bypass : option (list string))
| disarm.

(** A promise of the vendor client that has not settled yet.
    [PendingDevices] is a [discoverDevices] suspended at
    [await this.location.getDevices()]: it keeps its local array [devices],
    and [floating] tells that nobody holds its promise (the call made by the
    constructor). *)
Inductive Pending :=
| PendingSecurityPanel
| PendingLocationMode
| PendingDevices (floating : bool) (devices : list Device.t).

Record Runtime := {
  controller : RingLocationDevice;
  heap : list Instance;
  subscribedToLocationMode : bool;
  subscribedToPanel : bool;
  pending : list Pending;
  vendorCalls : list VendorCall;
  published : list DeviceManifest.t;
  console : list string;
  unhandledRejections : list string;
}.

Definition on_controller (f : RingLocationDevice → RingLocationDevice)
    (rt : Runtime) : Runtime :=
  {| controller := f (controller rt); heap := heap rt;
     subscribedToLocationMode := subscribedToLocationMode rt;
     subscribedToPanel := subscribedToPanel rt; pending := pending rt;
     vendorCalls := vendorCalls rt; published := published rt;
     console := console rt; unhandledRejections := unhandledRejections rt |}.

Definition set_heap (h : list Instance) (rt : Runtime) : Runtime :=
  {| controller := controller rt; heap := h;
     subscribedToLocationMode := subscribedToLocationMode rt;
     subscribedToPanel := subscribedToPanel rt; pending := pending rt;
     vendorCalls := vendorCalls rt; published := published rt;
     console := console rt; unhandledRejections := unhandledRejections rt |}.

Definition set_subscribedToLocationMode (b : bool) (rt : Runtime) : Runtime :=
  {| controller := controller rt; heap := heap rt;
     subscribedToLocationMode := b;
     subscribedToPanel := subscribedToPanel rt; pending := pending rt;
     vendorCalls := vendorCalls rt; published := published rt;
     console := console rt; unhandledRejections := unhandledRejections rt |}.

Definition set_subscribedToPanel (b : bool) (rt : Runtime) : Runtime :=
  {| controller := controller rt; heap := heap rt;
     subscribedToLocationMode := subscribedToLocationMode rt;
     subscribedToPanel := b; pending := pending rt;
     vendorCalls := vendorCalls rt; published := published rt;
     console := console rt; unhandledRejections := unhandledRejections rt |}.

Definition set_pending (p : list Pending) (rt : Runtime) : Runtime :=
  {| controller := controller rt; heap := heap rt;
     subscribedToLocationMode := subscribedToLocationMode rt;
     subscribedToPanel := subscribedToPanel rt; pending := p;
     vendorCalls := vendorCalls rt; published := published rt;
     console := console rt; unhandledRejections := unhandledRejections rt |}.

Definition push_vendorCall (c : VendorCall) (rt : Runtime) : Runtime :=
  {| controller := controller rt; heap := heap rt;
     subscribedToLocationMode := subscribedToLocationMode rt;
     subscribedToPanel := subscribedToPanel rt; pending := pending rt;
     vendorCalls := vendorCalls rt ++ [c]; published := published rt;
     console := console rt; unhandledRejections := unhandledRejections rt |}.

Definition push_published (m : DeviceManifest.t) (rt : Runtime) : Runtime :=
  {| controller := controller rt; heap := heap rt;
     subscribedToLocationMode := subscribedToLocationMode rt;
     subscribedToPanel := subscribedToPanel rt; pending := pending rt;
     vendorCalls := vendorCalls rt; published := published rt ++ [m];
     console := console rt; unhandledRejections := unhandledRejections rt |}.

Definition push_console (line : string) (rt : Runtime) : Runtime :=
  {| controller := controller rt; heap := heap rt;
     subscribedToLocationMode := subscribedToLocationMode rt;
     subscribedToPanel := subscribedToPanel rt; pending := pending rt;
     vendorCalls := vendorCalls rt; published := published rt;
     console := console rt ++ [line];
     unhandledRejections := unhandledRejections rt |}.

Definition push_unhandledRejection (what : string) (rt : Runtime) : Runtime :=
  {| controller := controller rt; heap := heap rt;
     subscribedToLocationMode := subscribedToLocationMode rt;
     subscribedToPanel := subscribedToPanel rt; pending := pending rt;
     vendorCalls := vendorCalls rt; published := published rt;
     console := console rt;
     unhandledRejections := unhandledRejections rt ++ [what] |}.

(** The first pending promise that [p] accepts, and the others. *)
Fixpoint settle (p : Pending → bool) (l : list Pending)
  : option (Pending * list Pending) :=
  match l with
  | [] => None
  | x :: l' =>
      if p x then Some (x, l')
      else match settle p l' with
           | Some (y, rest) => Some (y, x :: rest)
           | None => None
           end
  end.

Definition isPendingSecurityPanel (x : Pending) : bool :=
  match x with PendingSecurityPanel => true | _ => false end.
Definition isPendingLocationMode (x : Pending) : bool :=
  match x with PendingLocationMode => true | _ => false end.
Definition isPendingDevices (x : Pending) : bool :=
  match x with PendingDevices _ _ => true | _ => false end.

(** A call that returns a value or throws. *)
Inductive Completion (A : Type) :=
| Returns (a : A)
| Throws (error : string).
Arguments Returns {A} a.
Arguments Throws {A} error.

(** How the promise of [armSecuritySystem] or [disarmSecuritySystem]
    settles: at once, or as the vendor command that it awaits. *)
Inductive Settlement :=
| Resolved
| SettlesAs (call : VendorCall).

(** ** The methods of [RingLocationDevice] *)

Section Controller.
  (** The values of the vendor enum, see [RingDeviceType.t]. *)
Variable vendor : RingDeviceType.t.

(** The constructor of [RingCameraDevice] is declared in [camera.ts]:
    [RingCameraDevice_new nativeId camera] tells whether it completes
    ([true]) or throws ([false]) on these arguments. *)
Variable RingCameraDevice_new : string → option LocationRecord → bool.

(** *** [discoverDevices], up to its first [await] (lines 125-167) *)

Definition cameraLoop (location : Location.t) (cameras : list RingCamera.t)
    (start : list Device.t * JsMap.t LocationRecord)
  : list Device.t * JsMap.t LocationRecord :=
  fold_left
    (λ '(devices, index) camera,
       (devices ++ [cameraDevice location camera],
        JsMap.set (RingCamera.id camera) (IsCamera camera) index))
    cameras start.

Definition discoverDevices_begin (floating : bool) (rt : Runtime) : Runtime :=
  let this := controller rt in
  let '(devices, index) :=
    cameraLoop (location this) (Location.cameras (location this))
               ([], JsMap.clear (locationDevices this)) in
  set_pending (pending rt ++ [PendingDevices floating devices])
    (on_controller (set_locationDevices index) rt).

(** *** [discoverDevices], after [getDevices] has answered (lines 168-231) *)

Definition unsupportedMessage (locationDevice : RingDevice.t) : string :=
  "discovered and ignoring unsupported '" +:+
  RingDevice.deviceType locationDevice +:+ "' device: '" +:+
  RingDevice.name locationDevice +:+ "'".

Definition deviceLoopBody (acc : list Device.t * Runtime)
    (locationDevice : RingDevice.t) : list Device.t * Runtime :=
  let '(devices, rt) := acc in
  match switchDeviceType vendor locationDevice with
  | ContinueDisabled => (devices, rt)
  | ContinueUnsupported =>
      (devices, push_console (unsupportedMessage locationDevice) rt)
  | Break nativeId type interfaces =>
      let device :=
        genericDevice (location (controller rt)) locationDevice
                      nativeId type interfaces in
      (devices ++ [device],
       on_controller
         (λ this, set_locationDevices
                    (JsMap.set nativeId (IsDevice locationDevice)
                               (locationDevices this)) this)
         rt)
  end.

Definition discoverDevices_resume (devices : list Device.t)
    (locationDevices : list RingDevice.t) (rt : Runtime) : Runtime :=
  let '(devices, rt) := fold_left deviceLoopBody locationDevices (devices, rt) in
  push_published
    {| DeviceManifest.providerNativeId := Location.id (location (controller rt));
       DeviceManifest.devices := devices |}
    rt.

(** A whole run of [discoverDevices] in which [getDevices] answers
    [locationDevices] and nothing else happens in between. *)
Definition discoverDevices (getDevices : list RingDevice.t)
    (rt : Runtime) : Runtime :=
  let this := controller rt in
  let '(devices, index) :=
    cameraLoop (location this) (Location.cameras (location this))
               ([], JsMap.clear (locationDevices this)) in
  discoverDevices_resume devices getDevices
    (on_controller (set_locationDevices index) rt).

(** *** [getDevice] (lines 234-248) *)

(** [new RingSensor(..)] and [new RingLock(..)] run
    [device.onData.subscribe(..)], which throws a [TypeError] when [device]
    is [undefined]; both record classes of the vendor have [onData]. *)
Definition new (cls : DeviceClass) (nativeId : string)
    (device : option LocationRecord) : Completion Instance :=
  let completes :=
    match cls with
    | RingSensor | RingLock =>
        match device with Some _ => true | None => false end
    | RingCameraDevice => RingCameraDevice_new nativeId device
    end in
  if completes
  then Returns {| class := cls; instanceNativeId := nativeId;
                  device := device |}
  else Throws "TypeError".

Definition getDevice (nativeId : string) (rt : Runtime)
  : Completion (option Ref) * Runtime :=
  let this := controller rt in
  if negb (JsMap.has nativeId (devices this)) then
    let cls :=
      if endsWith nativeId "-sensor" then RingSensor
      else if endsWith nativeId "-lock" then RingLock
      else RingCameraDevice in
    match new cls nativeId (JsMap.get nativeId (locationDevices this)) with
    | Throws error => (Throws error, rt)
    | Returns instance =>
        let ref : Ref := length (heap rt) in
        let rt := set_heap (heap rt ++ [instance]) rt in
        let rt :=
          on_controller
            (λ this, set_devices (JsMap.set nativeId ref (devices this)) this)
            rt in
        (Returns (JsMap.get nativeId (devices (controller rt))), rt)
    end
  else (Returns (JsMap.get nativeId (devices this)), rt).

(** [releaseDevice] (line 250) has an empty body. *)
Definition releaseDevice (id nativeId : string) (rt : Runtime) : Runtime := rt.

(** *** [armSecuritySystem] and [disarmSecuritySystem] (lines 252-277) *)

(** [device.deviceType] on a value of the index. *)
Definition deviceTypeOf (r : LocationRecord) : string :=
  match r with
  | IsCamera c => RingCamera.deviceType c
  | IsDevice d => RingDevice.deviceType d
  end.

(** [device.data.faulted] as a condition; the data of a camera has no
    such field. *)
Definition faultedOf (r : LocationRecord) : bool :=
  match r with
  | IsCamera _ => false
  | IsDevice d => default false (RingDeviceData.faulted (RingDevice.data d))
  end.

Definition idOf (r : LocationRecord) : string :=
  match r with
  | IsCamera c => RingCamera.id c
  | IsDevice d => RingDevice.id d
  end.

(** The callback of [filter] on line 261. *)
Definition isFaultedContactSensor (r : LocationRecord) : bool :=
  (String.eqb (deviceTypeOf r) (RingDeviceType.ContactSensor vendor)
   || String.eqb (deviceTypeOf r) (RingDeviceType.RetrofitZone vendor))
  && faultedOf r.

(** Lines 260-262. *)
Definition bypassContactSensors (this : RingLocationDevice) : list string :=
  idOf <$> List.filter isFaultedContactSensor
             (JsMap.Object_values (locationDevices this)).

Definition armSecuritySystem (mode : ModeValue) (rt : Runtime)
  : Settlement * Runtime :=
  let this := controller rt in
  match mode with
  | Member AwayArmed =>
      (SettlesAs (armAway None), push_vendorCall (armAway None) rt)
  | Member HomeArmed =>
      (SettlesAs (armHome None), push_vendorCall (armHome None) rt)
  | Member NightArmed =>
      let bypass := bypassContactSensors this in
      if String.eqb (nightModeBypassAlarmState (plugin this)) "Away"
      then (SettlesAs (armAway (Some bypass)),
            push_vendorCall (armAway (Some bypass)) rt)
      else (SettlesAs (armHome (Some bypass)),
            push_vendorCall (armHome (Some bypass)) rt)
  | Member Disarmed =>
      (SettlesAs disarm, push_vendorCall disarm rt)
  | OffEnum _ => (Resolved, rt)
  end.

Definition disarmSecuritySystem (rt : Runtime) : Settlement * Runtime :=
  (SettlesAs disarm, push_vendorCall disarm rt).

(** *** The constructor (lines 67-122) *)

(** [stored] is the value of the property [securitySystemState] that the
    host keeps for this [nativeId] when the object is built. *)
Definition constructor (plugin : RingPlugin) (location : Location.t)
    (stored : option SecuritySystemState) : Runtime :=
  let rt :=
    {| controller :=
         {| plugin := plugin; location := location;
            devices := JsMap.new; locationDevices := JsMap.new;
            securitySystemState := stored |};
       heap := []; subscribedToLocationMode := false;
       subscribedToPanel := false; pending := [];
       vendorCalls := []; published := []; console := [];
       unhandledRejections := [] |} in
  (* line 96: the subscription, and what the feed replays to it at once *)
  let rt := set_subscribedToLocationMode true rt in
  let rt :=
    fold_left (λ rt f, on_controller (updateLocationMode f) rt)
      (Location.onLocationMode location) rt in
  (* lines 100-109: the promise of getSecurityPanel() *)
  let rt := set_pending (pending rt ++ [PendingSecurityPanel]) rt in
  (* lines 111-119 *)
  let rt :=
    if Location.hasAlarmBaseStation location then
      let rt := set_pending (pending rt ++ [PendingLocationMode]) rt in
      match securitySystemState (controller rt) with
      | None => on_controller (updateLocationMode "disabled") rt
      | Some _ => rt
      end
    else rt in
  (* line 121 *)
  discoverDevices_begin true rt.

(** *** What happens after construction *)

Inductive Event :=
  | LocationModeEmitted (f : LocationMode)
  | SecurityPanelResolved
  | SecurityPanelRejected
  | PanelDataEmitted
  | LocationModeFetched (f : LocationMode)
  | LocationModeRejected
  | DevicesFetched (locationDevices : list RingDevice.t)
  | DevicesRejected
  | DiscoverDevicesCalled
  | GetDeviceCalled (nativeId : string)
  | ReleaseDeviceCalled (id nativeId : string)
  | ArmSecuritySystemCalled (mode : ModeValue)
  | DisarmSecuritySystemCalled
  | SettingChanged (nightModeBypassAlarmState : string).

(** An answer of the vendor client settles the oldest pending promise of
    its kind; an answer that no promise waits for changes nothing. *)
Definition dispatch (rt : Runtime) (e : Event) : Runtime :=
  match e with
  | LocationModeEmitted f =>
      if subscribedToLocationMode rt
      then on_controller (updateLocationMode f) rt else rt
  | SecurityPanelResolved =>
      match settle isPendingSecurityPanel (pending rt) with
      | Some (_, rest) => set_subscribedToPanel true (set_pending rest rt)
      | None => rt
      end
  | SecurityPanelRejected =>
      match settle isPendingSecurityPanel (pending rt) with
      | Some (_, rest) => set_pending rest rt
      | None => rt
      end
  | PanelDataEmitted =>
      if subscribedToPanel rt
      then set_pending (pending rt ++ [PendingLocationMode]) rt else rt
  | LocationModeFetched f =>
      match settle isPendingLocationMode (pending rt) with
      | Some (_, rest) =>
          on_controller (updateLocationMode f) (set_pending rest rt)
      | None => rt
      end
  | LocationModeRejected =>
      match settle isPendingLocationMode (pending rt) with
      | Some (_, rest) =>
          push_unhandledRejection "getLocationMode" (set_pending rest rt)
      | None => rt
      end
  | DevicesFetched locationDevices =>
      match settle isPendingDevices (pending rt) with
      | Some (PendingDevices _ devices, rest) =>
          discoverDevices_resume devices locationDevices (set_pending rest rt)
      | _ => rt
      end
  | DevicesRejected =>
      match settle isPendingDevices (pending rt) with
      | Some (PendingDevices true _, rest) =>
          push_unhandledRejection "getDevices" (set_pending rest rt)
      | Some (_, rest) => set_pending rest rt
      | None => rt
      end
  | DiscoverDevicesCalled => discoverDevices_begin false rt
  | GetDeviceCalled nativeId => (getDevice nativeId rt).2
  | ReleaseDeviceCalled id nativeId => releaseDevice id nativeId rt
  | ArmSecuritySystemCalled mode => (armSecuritySystem mode rt).2
  | DisarmSecuritySystemCalled => (disarmSecuritySystem rt).2
  | SettingChanged v =>
      on_controller
        (set_plugin {| nightModeBypassAlarmState := v |}) rt
  end.

Definition run (rt : Runtime) (events : list Event) : Runtime :=
  fold_left dispatch events rt.

(** The states that a controller can be in. *)
Definition reachable (rt : Runtime) : Prop :=
  ∃ plugin location stored events,
    rt = run (constructor plugin location stored) events.
End Controller.

(** ** Closed forms of the two loops of [discoverDevices] *)

Section ClosedForms.
Variable vendor : RingDeviceType.t.

(** The index once the first loop has run over [cameras]. *)
Definition indexCameras (cameras : list RingCamera.t)
    (index : JsMap.t LocationRecord) : JsMap.t LocationRecord :=
  fold_left
    (λ index camera, JsMap.set (RingCamera.id camera) (IsCamera camera) index)
    cameras index.

(** The index once the second loop has run over [locationDevices]. *)
Definition indexDevices (locationDevices : list RingDevice.t)
    (index : JsMap.t LocationRecord) : JsMap.t LocationRecord :=
  fold_left
    (λ index locationDevice,
       match switchDeviceType vendor locationDevice with
       | Break nativeId _ _ =>
           JsMap.set nativeId (IsDevice locationDevice) index
       | _ => index
       end)
    locationDevices index.

(** The lines that the second loop writes with [console.debug]. *)
Definition ignored (locationDevices : list RingDevice.t) : list string :=
  omap
    (λ locationDevice,
       match switchDeviceType vendor locationDevice with
       | ContinueUnsupported => Some (unsupportedMessage locationDevice)
       | _ => None
       end)
    locationDevices.

(** The descriptor list of a run over [cameras] and [locationDevices]. *)
Definition descriptors (location : Location.t)
    (locationDevices : list RingDevice.t) : list Device.t :=
  (cameraDevice location <$> Location.cameras location)
  ++ omap (classify vendor location) locationDevices.

(** The record has the status that line 174 tests for. *)
Definition isDisabled (locationDevice : RingDevice.t) : bool :=
  bool_decide
    (RingDeviceData.status (RingDevice.data locationDevice) = Some "disabled").

(** The battery flag of a generic record, as line 209 reads it. *)
Definition hasBattery (locationDevice : RingDevice.t) : bool :=
  negb (String.eqb
          (RingDeviceData.batteryStatus (RingDevice.data locationDevice))
          "none").
End ClosedForms.

(** A sample of the vendor enum, for the concrete runs below. *)
Definition sampleTypes : RingDeviceType.t :=
  {| RingDeviceType.ContactSensor := "sensor.contact";
     RingDeviceType.RetrofitZone := "sensor.zone";
     RingDeviceType.TiltSensor := "sensor.tilt";
     RingDeviceType.MotionSensor := "sensor.motion";
     RingDeviceType.FloodFreezeSensor := "sensor.flood-freeze";
     RingDeviceType.WaterSensor := "sensor.water" |}.

(** A camera constructor that completes exactly on a camera that exists. *)
Definition sampleCameraNew (nativeId : string) (camera : option LocationRecord)
  : bool :=
  match camera with Some _ => true | None => false end.

Definition sampleDevice (id deviceType : string) (status : option string)
    (batteryStatus : string) (faulted : option bool) : RingDevice.t :=
  {| RingDevice.id := id;
     RingDevice.name := "Sensor " +:+ id;
     RingDevice.data :=
       {| RingDeviceData.status := status;
          RingDeviceData.deviceType := deviceType;
          RingDeviceData.batteryStatus := batteryStatus;
          RingDeviceData.serialNumber := None;
          RingDeviceData.faulted := faulted |} |}.

Definition sampleCamera (id : string) (status : option string) : RingCamera.t :=
  {| RingCamera.id := id;
     RingCamera.name := "Front door";
     RingCamera.model := "Doorbell";
     RingCamera.deviceType := "doorbell_v3";
     RingCamera.isRingEdgeEnabled := false;
     RingCamera.operatingOnBattery := false;
     RingCamera.isDoorbot := true;
     RingCamera.hasLight := false;
     RingCamera.hasSiren := false;
     RingCamera.data :=
       {| CameraData.kind := "doorbell_v3";
          CameraData.firmware_version := "1.0";
          CameraData.device_id := "aabbcc";
          CameraData.status := status |} |}.

Definition sampleLocation (cameras : list RingCamera.t) : Location.t :=
  {| Location.id := "home";
     Location.cameras := cameras;
     Location.hasAlarmBaseStation := true;
     Location.onLocationMode := [] |}.

Definition samplePlugin : RingPlugin :=
  {| nightModeBypassAlarmState := "Away" |}.

(** The part of a descriptor that the claim on classification speaks of:
    its type, its interfaces, and the fields of [info] that do not come
    from a serial number. *)
Definition sameClass (x y : Device.t) : Prop :=
  Device.type x = Device.type y
  ∧ Device.interfaces x = Device.interfaces y
  ∧ DeviceInformation.model (Device.info x)
    = DeviceInformation.model (Device.info y)
  ∧ DeviceInformation.manufacturer (Device.info x)
    = DeviceInformation.manufacturer (Device.info y).

(** The controller when line 96 has run: the object as it is built, with
    the snapshot that the host holds, after [updateLocationMode] has been
    called with every mode that the feed replays at subscription. *)
Definition subscribed (plugin : RingPlugin) (location : Location.t)
    (stored : option SecuritySystemState) : RingLocationDevice :=
  fold_left (λ this f, updateLocationMode f this)
    (Location.onLocationMode location)
    {| plugin := plugin; location := location;
       devices := JsMap.new; locationDevices := JsMap.new;
       securitySystemState := stored |}.

(** The class that [getDevice] builds for an identifier (lines 236-245). *)
Definition classFor (nativeId : string) : DeviceClass :=
  if endsWith nativeId "-sensor" then RingSensor
  else if endsWith nativeId "-lock" then RingLock
  else RingCameraDevice.

(** The promises of [getSecurityPanel] that have not settled. *)
Definition panelsPending (rt : Runtime) : list Pending :=
  List.filter isPendingSecurityPanel (pending rt).

(** ** Telemetry of the leaf devices (lines 8-60) *)

Module LockState.
Inductive t := Locked | Unlocked | Jammed.
End LockState.

Module FloodData.
Record t := {
    faulted : option bool;
  }.
End FloodData.

(** What [device.onData] emits: a [RingDeviceData], with the fields that
    discovery reads ([data]) and those that only the two [updateState]
    methods read. *)
Module OnData.
Record t := {
    data : RingDeviceData.t;
    tamperStatus : option string;
    batteryLevel : option Z;
    flood : option FloodData.t;
    locked : option string;
  }.
End OnData.

(** [a || b] on values that are a boolean or [undefined]. *)
Definition orElse (a b : option bool) : option bool :=
  match a with
  | Some true => a
  | _ => b
  end.

(** The properties that a [RingSensor] sets (lines 45-60). *)
Module RingSensorDevice.
Record t := {
    tampered : option bool;
    batteryLevel : option Z;
    entryOpen : option bool;
    motionDetected : option bool;
    flooded : option bool;
  }.

Definition updateState (data : OnData.t) (this : t) : t :=
  let faulted := RingDeviceData.faulted (OnData.data data) in
  {| tampered := Some (bool_decide (OnData.tamperStatus data = Some "tamper"));
     batteryLevel := OnData.batteryLevel data;
     entryOpen := faulted;
     motionDetected := faulted;
     flooded := orElse (OnData.flood data ≫= FloodData.faulted) faulted |}.

(** The subscription made by the constructor: every emission runs
    [updateState]. *)
Definition onData (emitted : list OnData.t) (this : t) : t :=
  fold_left (λ this data, updateState data this) emitted this.
End RingSensorDevice.

(** The properties that a [RingLock] sets, and its commands (lines 8-43). *)
Module RingLockDevice.
Record t := {
    batteryLevel : option Z;
    lockState : option LockState.t;
  }.

Definition updateState (data : OnData.t) (this : t) : t :=
  {| batteryLevel := OnData.batteryLevel data;
     lockState :=
       match OnData.locked data with
       | Some locked =>
           if String.eqb locked "locked" then Some LockState.Locked
           else if String.eqb locked "unlocked" then Some LockState.Unlocked
           else if String.eqb locked "jammed" then Some LockState.Jammed
           else None
       | None => None
       end |}.

Definition onData (emitted : list OnData.t) (this : t) : t :=
  fold_left (λ this data, updateState data this) emitted this.

(** [lock()] and [unlock()]: the command handed to [device.sendCommand];
    the object itself is left as it is. *)
Definition lock (this : t) : string * t := ("lock.lock", this).
Definition unlock (this : t) : string * t := ("lock.unlock", this).
End RingLockDevice.

(** ** Vocabulary for the statements on discovery and on the event loop *)

#[export] Instance ScryptedInterface_eq_dec : EqDecision ScryptedInterface.t.
Proof. solve_decision. Defined.

#[export] Instance ScryptedDeviceType_eq_dec : EqDecision ScryptedDeviceType.t.
Proof. solve_decision. Defined.

(** The type tag is one of the six members of the vendor enum that the
    [switch] of line 178 names. *)
Definition isSensorTag (vendor : RingDeviceType.t) (deviceType : string) : bool :=
  String.eqb deviceType (RingDeviceType.ContactSensor vendor)
  || String.eqb deviceType (RingDeviceType.RetrofitZone vendor)
  || String.eqb deviceType (RingDeviceType.TiltSensor vendor)
  || String.eqb deviceType (RingDeviceType.MotionSensor vendor)
  || String.eqb deviceType (RingDeviceType.FloodFreezeSensor vendor)
  || String.eqb deviceType (RingDeviceType.WaterSensor vendor).

(** The calls of [this.locationDevices.set] of one run, in order: first the
    cameras, then the generic devices that are described. *)
Definition indexed (vendor : RingDeviceType.t) (location : Location.t)
    (records : list RingDevice.t) : list (string * LocationRecord) :=
  ((λ camera, (RingCamera.id camera, IsCamera camera))
     <$> Location.cameras location)
  ++ omap
       (λ d, match switchDeviceType vendor d with
             | Break nativeId _ _ => Some (nativeId, IsDevice d)
             | _ => None
             end)
       records.

(** The event is a call that hands a command to the vendor. *)
Definition issuesCommand (e : Event) : bool :=
  match e with
  | ArmSecuritySystemCalled (Member _) | DisarmSecuritySystemCalled => true
  | _ => false
  end.

(** The event can write the snapshot. *)
Definition reportsMode (e : Event) : bool :=
  match e with
  | LocationModeEmitted _ | LocationModeFetched _ => true
  | _ => false
  end.

(** * Properties *)

(** ** The transition function *)

Lemma updateLocationMode_frame f this :
  plugin (updateLocationMode f this) = plugin this
  ∧ location (updateLocationMode f this) = location this
  ∧ devices (updateLocationMode f this) = devices this
  ∧ locationDevices (updateLocationMode f this) = locationDevices this.
Proof. done. Qed.

Lemma updateLocationMode_is_Some f this :
  is_Some (securitySystemState (updateLocationMode f this)).
Proof. unfold updateLocationMode. simpl. eauto. Qed.

(** C4: the snapshot written by [updateLocationMode f] has mode [AwayArmed]
    for 'away', [HomeArmed] for 'home' and [Disarmed] for every other value;
    [triggered] is false; [supportedModes] is Disarmed, AwayArmed, HomeArmed,
    followed by NightArmed exactly when the setting is not "Disabled". *)
Theorem updateLocationMode_snapshot (f : LocationMode) (this : RingLocationDevice) :
  ∃ st,
    securitySystemState (updateLocationMode f this) = Some st
    ∧ (f = "away" → mode st = AwayArmed)
    ∧ (f = "home" → mode st = HomeArmed)
    ∧ (f ≠ "away" → f ≠ "home" → mode st = Disarmed)
    ∧ triggered st = false
    ∧ supportedModes st =
        [Disarmed; AwayArmed; HomeArmed]
        ++ (if decide (nightModeBypassAlarmState (plugin this) = "Disabled")
            then [] else [NightArmed])
    ∧ Disarmed ∈ supportedModes st
    ∧ AwayArmed ∈ supportedModes st
    ∧ HomeArmed ∈ supportedModes st
    ∧ (NightArmed ∈ supportedModes st
       ↔ nightModeBypassAlarmState (plugin this) ≠ "Disabled").
Proof.
  unfold updateLocationMode. eexists. split; [reflexivity|]. simpl.
  destruct (String.eqb_spec (nightModeBypassAlarmState (plugin this)) "Disabled")
    as [Hd|Hd]; simpl.
  all: destruct (String.eqb_spec f "away") as [->|Haway];
    [|destruct (String.eqb_spec f "home") as [->|Hhome]].
  all: repeat split; try done.
  all: try (case_decide; done).
  all: rewrite ?elem_of_cons, ?elem_of_nil; naive_solver.
Qed.

(** ** Discovery *)

Section DiscoveryFacts.
Variable vendor : RingDeviceType.t.

Lemma on_controller_id (rt : Runtime) :
  on_controller
    (set_locationDevices (locationDevices (controller rt))) rt = rt.
Proof. by destruct rt as [[] ? ? ? ? ? ? ? ?]. Qed.

Lemma cameraLoop_closed location cameras devices index :
  cameraLoop location cameras (devices, index)
  = (devices ++ (cameraDevice location <$> cameras), indexCameras cameras index).
Proof.
  unfold cameraLoop, indexCameras.
  revert devices index.
  induction cameras as [|camera cameras IH]; intros devices index; simpl.
  - by rewrite app_nil_r.
  - rewrite IH. by rewrite <- app_assoc.
Qed.

(** The second loop only touches the index and the console. *)
Lemma deviceLoop_closed records devices rt :
  fold_left (deviceLoopBody vendor) records (devices, rt)
  = (devices ++ omap (classify vendor (location (controller rt))) records,
     fold_left (λ rt line, push_console line rt) (ignored vendor records)
       (on_controller
          (set_locationDevices
             (indexDevices vendor records (locationDevices (controller rt))))
          rt)).
Proof.
  revert devices rt.
  induction records as [|d records IH]; intros devices rt.
  - simpl. by rewrite app_nil_r, on_controller_id.
  - cbn [fold_left]. unfold deviceLoopBody at 2.
    unfold ignored, indexDevices, classify in *. cbn [omap fold_left list_omap].
    destruct (switchDeviceType vendor d) eqn:Hd; rewrite IH; clear IH.
    + reflexivity.
    + reflexivity.
    + by rewrite <- app_assoc.
Qed.

Lemma fold_push_console_frame lines rt :
  let rt' := fold_left (λ rt line, push_console line rt) lines rt in
  controller rt' = controller rt ∧ heap rt' = heap rt
  ∧ subscribedToLocationMode rt' = subscribedToLocationMode rt
  ∧ subscribedToPanel rt' = subscribedToPanel rt
  ∧ pending rt' = pending rt ∧ vendorCalls rt' = vendorCalls rt
  ∧ published rt' = published rt
  ∧ console rt' = console rt ++ lines
  ∧ unhandledRejections rt' = unhandledRejections rt.
Proof.
  revert rt. induction lines as [|line lines IH]; intros rt; simpl.
  - by rewrite app_nil_r.
  - specialize (IH (push_console line rt)). simpl in IH.
    destruct IH as (-> & -> & -> & -> & -> & -> & -> & -> & ->).
    by rewrite <- app_assoc.
Qed.

(** What [discoverDevices_resume] leaves behind, field by field. *)
Lemma discoverDevices_resume_closed devices records rt :
  let rt' := discoverDevices_resume vendor devices records rt in
  controller rt'
  = set_locationDevices
      (indexDevices vendor records (locationDevices (controller rt)))
      (controller rt)
  ∧ heap rt' = heap rt
  ∧ subscribedToLocationMode rt' = subscribedToLocationMode rt
  ∧ subscribedToPanel rt' = subscribedToPanel rt
  ∧ pending rt' = pending rt ∧ vendorCalls rt' = vendorCalls rt
  ∧ published rt'
    = published rt
      ++ [{| DeviceManifest.providerNativeId :=
               Location.id (location (controller rt));
             DeviceManifest.devices :=
               devices
               ++ omap (classify vendor (location (controller rt))) records |}]
  ∧ console rt' = console rt ++ ignored vendor records
  ∧ unhandledRejections rt' = unhandledRejections rt.
Proof.
  unfold discoverDevices_resume. rewrite deviceLoop_closed.
  pose proof (fold_push_console_frame (ignored vendor records)
    (on_controller
       (set_locationDevices
          (indexDevices vendor records (locationDevices (controller rt)))) rt))
    as H.
  simpl in H. destruct H as (Hc & Hh & Hm & Hp & Hq & Hv & Hpub & Hcon & Hu).
  simpl. rewrite Hc, Hh, Hm, Hp, Hq, Hv, Hpub, Hcon, Hu. done.
Qed.

(** A whole run, field by field. *)
Lemma discoverDevices_closed records rt :
  let rt' := discoverDevices vendor records rt in
  let this := controller rt in
  controller rt'
  = set_locationDevices
      (indexDevices vendor records
         (indexCameras (Location.cameras (location this))
            (JsMap.clear (locationDevices this))))
      this
  ∧ heap rt' = heap rt
  ∧ subscribedToLocationMode rt' = subscribedToLocationMode rt
  ∧ subscribedToPanel rt' = subscribedToPanel rt
  ∧ pending rt' = pending rt ∧ vendorCalls rt' = vendorCalls rt
  ∧ published rt'
    = published rt
      ++ [{| DeviceManifest.providerNativeId := Location.id (location this);
             DeviceManifest.devices := descriptors vendor (location this) records |}]
  ∧ console rt' = console rt ++ ignored vendor records
  ∧ unhandledRejections rt' = unhandledRejections rt.
Proof.
  unfold discoverDevices. rewrite cameraLoop_closed. cbn zeta.
  match goal with |- context [discoverDevices_resume _ ?d ?r ?x] =>
    pose proof (discoverDevices_resume_closed d r x) as H end.
  cbn zeta in H. destruct H as (Hc & Hh & Hm & Hp & Hq & Hv & Hpub & Hcon & Hu).
  rewrite Hc, Hh, Hm, Hp, Hq, Hv, Hpub, Hcon, Hu. done.
Qed.
Lemma entries_indexCameras cameras (index : JsMap.t LocationRecord) :
  JsMap.entries (indexCameras cameras index)
  = fold_left (λ m camera, <[RingCamera.id camera := IsCamera camera]> m)
      cameras (JsMap.entries index)
  ∧ JsMap.ownProperties (indexCameras cameras index) = JsMap.ownProperties index.
Proof.
  unfold indexCameras. revert index.
  induction cameras as [|camera cameras IH]; intros index; simpl; [done|].
  exact (IH (JsMap.set (RingCamera.id camera) (IsCamera camera) index)).
Qed.

Lemma entries_indexDevices records (index : JsMap.t LocationRecord) :
  JsMap.entries (indexDevices vendor records index)
  = fold_left
      (λ m d, match switchDeviceType vendor d with
              | Break nativeId _ _ => <[nativeId := IsDevice d]> m
              | _ => m
              end)
      records (JsMap.entries index)
  ∧ JsMap.ownProperties (indexDevices vendor records index)
    = JsMap.ownProperties index.
Proof.
  unfold indexDevices. revert index.
  induction records as [|d records IH]; intros index; simpl; [done|].
  destruct (IH (match switchDeviceType vendor d with
                | Break nativeId _ _ => JsMap.set nativeId (IsDevice d) index
                | _ => index end)) as [-> ->].
  by destruct (switchDeviceType vendor d).
Qed.

Lemma dom_fold_cameras cameras (m : gmap string LocationRecord) :
  dom (fold_left (λ m camera, <[RingCamera.id camera := IsCamera camera]> m)
         cameras m)
  = dom m ∪ list_to_set (RingCamera.id <$> cameras).
Proof.
  revert m. induction cameras as [|camera cameras IH]; intros m; simpl.
  - set_solver.
  - rewrite IH, dom_insert_L. set_solver.
Qed.

Lemma classify_nativeId location d :
  Device.nativeId <$> classify vendor location d
  = match switchDeviceType vendor d with
    | Break nativeId _ _ => Some nativeId
    | _ => None
    end.
Proof. unfold classify. by destruct (switchDeviceType vendor d). Qed.

Lemma dom_fold_devices location records (m : gmap string LocationRecord) :
  dom (fold_left
         (λ m d, match switchDeviceType vendor d with
                 | Break nativeId _ _ => <[nativeId := IsDevice d]> m
                 | _ => m
                 end)
         records m)
  = dom m
    ∪ list_to_set (Device.nativeId <$> omap (classify vendor location) records).
Proof.
  revert m. induction records as [|d records IH]; intros m; simpl.
  - set_solver.
  - rewrite IH. pose proof (classify_nativeId location d) as Hd.
    destruct (switchDeviceType vendor d), (classify vendor location d);
      simplify_eq/=; rewrite ?dom_insert_L; set_solver.
Qed.

(** After a run the index holds exactly the identifiers of the descriptors
    of that run, whatever it held before. *)
Lemma discoverDevices_index records rt :
  let this := controller rt in
  let index := locationDevices (controller (discoverDevices vendor records rt)) in
  JsMap.entries index
  = JsMap.entries
      (indexDevices vendor records
         (indexCameras (Location.cameras (location this)) JsMap.new))
  ∧ dom (JsMap.entries index)
    = list_to_set
        (Device.nativeId <$> descriptors vendor (location this) records).
Proof.
  cbn zeta.
  destruct (discoverDevices_closed records rt) as (-> & _). simpl.
  destruct (entries_indexDevices records
    (indexCameras (Location.cameras (location (controller rt)))
       (JsMap.clear (locationDevices (controller rt))))) as [-> _].
  destruct (entries_indexDevices records
    (indexCameras (Location.cameras (location (controller rt)))
       JsMap.new)) as [-> _].
  destruct (entries_indexCameras (Location.cameras (location (controller rt)))
    (JsMap.clear (locationDevices (controller rt)))) as [-> _].
  destruct (entries_indexCameras (Location.cameras (location (controller rt)))
    (@JsMap.new LocationRecord)) as [-> _].
  simpl. split; [done|].
  rewrite (dom_fold_devices (location (controller rt))), dom_fold_cameras.
  unfold descriptors. rewrite fmap_app, list_to_set_app_L, dom_empty_L.
  rewrite <- list_fmap_compose. set_solver.
Qed.

(** C6: a run of [discoverDevices] publishes its whole descriptor list in one
    call of [onDevicesChanged]; a second run over the same cameras and the
    same devices publishes the same list (so the two are equal as sets); and
    each run rebuilds the index from nothing: afterwards it holds the
    identifiers of that run's descriptors, whatever it held before. *)
Theorem discoverDevices_twice (records : list RingDevice.t) (rt : Runtime) :
  let rt1 := discoverDevices vendor records rt in
  let rt2 := discoverDevices vendor records rt1 in
  ∃ first second : DeviceManifest.t,
    published rt1 = published rt ++ [first]
    ∧ published rt2 = published rt1 ++ [second]
    ∧ DeviceManifest.devices first
      = descriptors vendor (location (controller rt)) records
    ∧ DeviceManifest.devices second = DeviceManifest.devices first
    ∧ (∀ d, d ∈ DeviceManifest.devices first ↔ d ∈ DeviceManifest.devices second)
    ∧ JsMap.entries (locationDevices (controller rt1))
      = JsMap.entries
          (indexDevices vendor records
             (indexCameras (Location.cameras (location (controller rt)))
                JsMap.new))
    ∧ JsMap.entries (locationDevices (controller rt2))
      = JsMap.entries (locationDevices (controller rt1))
    ∧ dom (JsMap.entries (locationDevices (controller rt1)))
      = list_to_set (Device.nativeId <$> DeviceManifest.devices first)
    ∧ (∀ index,
         JsMap.entries
           (locationDevices
              (controller
                 (discoverDevices vendor records
                    (on_controller (set_locationDevices index) rt))))
         = JsMap.entries (locationDevices (controller rt1))).
Proof.
  intros rt1 rt2.
  destruct (discoverDevices_closed records rt) as (Hc1 & _ & _ & _ & _ & _ & Hp1 & _).
  destruct (discoverDevices_closed records rt1) as (_ & _ & _ & _ & _ & _ & Hp2 & _).
  destruct (discoverDevices_index records rt) as [He1 Hd1].
  destruct (discoverDevices_index records rt1) as [He2 _].
  assert (location (controller rt1) = location (controller rt)) as Hloc
    by (subst rt1; by rewrite Hc1).
  fold rt1 in Hc1, Hp1, He1, Hd1. fold rt2 in Hp2, He2.
  rewrite Hloc in Hp2, He2.
  eexists _, _. split; [exact Hp1|]. split; [exact Hp2|]. simpl.
  repeat split; try done.
  - by rewrite He2, He1.
  - intros index.
    destruct (discoverDevices_index records
      (on_controller (set_locationDevices index) rt)) as [-> _].
    by rewrite He1.
Qed.
End DiscoveryFacts.

(** ** Records that discovery leaves out, records that it tells apart *)

Section ClassificationFacts.
Variable vendor : RingDeviceType.t.

Lemma switchDeviceType_disabled d :
  RingDeviceData.status (RingDevice.data d) = Some "disabled" →
  switchDeviceType vendor d = ContinueDisabled.
Proof. intros H. unfold switchDeviceType. by rewrite bool_decide_eq_true_2. Qed.

Lemma deviceLoopBody_disabled d acc :
  RingDeviceData.status (RingDevice.data d) = Some "disabled" →
  deviceLoopBody vendor acc d = acc.
Proof.
  intros H. destruct acc as [devices rt]. unfold deviceLoopBody.
  by rewrite switchDeviceType_disabled.
Qed.

(** C2, as the code has it: a generic device record whose status is
    "disabled" yields no descriptor, and the run is the one that discovery
    makes without that record: same descriptor list, same index, same
    console.  The camera loop looks at no status: every camera of the
    location has its descriptor in the list. *)
Theorem disabled_device_not_discovered
    (before after : list RingDevice.t) (d : RingDevice.t) (rt : Runtime)
    (Hstatus : RingDeviceData.status (RingDevice.data d) = Some "disabled") :
  classify vendor (location (controller rt)) d = None
  ∧ discoverDevices vendor (before ++ d :: after) rt
    = discoverDevices vendor (before ++ after) rt
  ∧ descriptors vendor (location (controller rt)) (before ++ d :: after)
    = descriptors vendor (location (controller rt)) (before ++ after)
  ∧ (∀ camera, camera ∈ Location.cameras (location (controller rt)) →
       cameraDevice (location (controller rt)) camera
       ∈ descriptors vendor (location (controller rt)) (before ++ d :: after)).
Proof.
  assert (classify vendor (location (controller rt)) d = None) as Hnone.
  { unfold classify. by rewrite switchDeviceType_disabled. }
  split; [done|]. split; [|split].
  - unfold discoverDevices, discoverDevices_resume.
    destruct (cameraLoop _ _ _) as [devices index].
    rewrite !fold_left_app. simpl.
    by rewrite deviceLoopBody_disabled.
  - unfold descriptors. rewrite !omap_app. simpl. by rewrite Hnone.
  - intros camera Hin. unfold descriptors.
    apply elem_of_app. left. by apply list_elem_of_fmap_2.
Qed.




(** C9, as the code has it: two generic records that agree on the type tag,
    on the battery flag and on being disabled are either both left out, or
    both described with the same type, interfaces, model and manufacturer
    and with identifiers that carry the same suffix; two cameras that agree
    on the doorbell, battery, edge, light and siren flags get the same type
    and the same interfaces. *)
Theorem classification_determined :
  (∀ location (d1 d2 : RingDevice.t),
     RingDevice.deviceType d1 = RingDevice.deviceType d2 →
     hasBattery d1 = hasBattery d2 →
     isDisabled d1 = isDisabled d2 →
     match classify vendor location d1, classify vendor location d2 with
     | Some x, Some y =>
         sameClass x y
         ∧ ∃ suffix, Device.nativeId x = RingDevice.id d1 +:+ suffix
                     ∧ Device.nativeId y = RingDevice.id d2 +:+ suffix
     | None, None => True
     | _, _ => False
     end)
  ∧ (∀ location (c1 c2 : RingCamera.t),
       RingCamera.isDoorbot c1 = RingCamera.isDoorbot c2 →
       RingCamera.operatingOnBattery c1 = RingCamera.operatingOnBattery c2 →
       RingCamera.isRingEdgeEnabled c1 = RingCamera.isRingEdgeEnabled c2 →
       RingCamera.hasLight c1 = RingCamera.hasLight c2 →
       RingCamera.hasSiren c1 = RingCamera.hasSiren c2 →
       Device.type (cameraDevice location c1) = Device.type (cameraDevice location c2)
       ∧ Device.interfaces (cameraDevice location c1)
         = Device.interfaces (cameraDevice location c2)).
Proof.
  split.
  - intros location d1 d2 Htype Hbattery Hdisabled.
    unfold classify, switchDeviceType, genericDevice, sameClass.
    unfold isDisabled, hasBattery, RingDevice.deviceType in *.
    rewrite Hdisabled, <- Htype, Hbattery.
    repeat (case_match; simplify_eq/=; try done); eauto 10.
  - intros location c1 c2 H1 H2 H3 H4 H5. simpl. unfold cameraInterfaces.
    by rewrite H1, H2, H3, H4, H5.
Qed.

End ClassificationFacts.

(** ** The controller as a state machine *)

Section ControllerFacts.
Variable vendor : RingDeviceType.t.
Variable RingCameraDevice_new : string → option LocationRecord → bool.

#[local] Abbreviation getDevice := (getDevice RingCameraDevice_new).
#[local] Abbreviation armSecuritySystem := (armSecuritySystem vendor).
#[local] Abbreviation dispatch := (dispatch vendor RingCameraDevice_new).
#[local] Abbreviation run := (run vendor RingCameraDevice_new).
#[local] Abbreviation reachable := (reachable vendor RingCameraDevice_new).

Lemma discoverDevices_begin_closed floating rt :
  discoverDevices_begin floating rt
  = set_pending
      (pending rt
       ++ [PendingDevices floating
             (cameraDevice (location (controller rt))
                <$> Location.cameras (location (controller rt)))])
      (on_controller
         (set_locationDevices
            (indexCameras (Location.cameras (location (controller rt)))
               (JsMap.clear (locationDevices (controller rt)))))
         rt).
Proof. unfold discoverDevices_begin. by rewrite cameraLoop_closed. Qed.

Lemma run_snoc rt events e :
  run rt (events ++ [e]) = dispatch (run rt events) e.
Proof. unfold run. by rewrite fold_left_app. Qed.

(** Induction over the events that follow the constructor. *)
Lemma reachable_ind (P : Runtime → Prop) :
  (∀ plugin location stored, P (constructor plugin location stored)) →
  (∀ rt e, reachable rt → P rt → P (dispatch rt e)) →
  ∀ rt, reachable rt → P rt.
Proof.
  intros Hinit Hstep rt (plugin & location & stored & events & ->).
  induction events as [|e events IH] using rev_ind; [apply Hinit|].
  rewrite run_snoc. apply Hstep; [|done]. by exists plugin, location, stored, events.
Qed.

Lemma reachable_dispatch rt e : reachable rt → reachable (dispatch rt e).
Proof.
  intros (plugin & location & stored & events & ->).
  exists plugin, location, stored, (events ++ [e]). by rewrite run_snoc.
Qed.

Lemma settle_Some p l x rest :
  settle p l = Some (x, rest) →
  p x = true ∧ x ∈ l ∧ (∀ y, y ∈ rest → y ∈ l).
Proof.
  revert x rest. induction l as [|a l IH]; intros x rest; simpl; [done|].
  destruct (p a) eqn:Hpa.
  - intros [= <- <-]. set_solver.
  - destruct (settle p l) as [[y rest']|]; [|done].
    intros [= <- <-]. destruct (IH y rest' eq_refl) as (? & ? & ?). set_solver.
Qed.

(** *** What each method leaves alone *)

Lemma getDevice_frame nativeId rt :
  let rt' := (getDevice nativeId rt).2 in
  plugin (controller rt') = plugin (controller rt)
  ∧ location (controller rt') = location (controller rt)
  ∧ locationDevices (controller rt') = locationDevices (controller rt)
  ∧ securitySystemState (controller rt') = securitySystemState (controller rt)
  ∧ subscribedToLocationMode rt' = subscribedToLocationMode rt
  ∧ subscribedToPanel rt' = subscribedToPanel rt
  ∧ pending rt' = pending rt ∧ vendorCalls rt' = vendorCalls rt
  ∧ published rt' = published rt ∧ console rt' = console rt
  ∧ unhandledRejections rt' = unhandledRejections rt.
Proof. unfold getDevice. by repeat case_match. Qed.

Lemma armSecuritySystem_frame mode rt :
  let rt' := (armSecuritySystem mode rt).2 in
  controller rt' = controller rt ∧ heap rt' = heap rt
  ∧ subscribedToLocationMode rt' = subscribedToLocationMode rt
  ∧ subscribedToPanel rt' = subscribedToPanel rt
  ∧ pending rt' = pending rt ∧ published rt' = published rt
  ∧ console rt' = console rt
  ∧ unhandledRejections rt' = unhandledRejections rt.
Proof. unfold armSecuritySystem. by repeat case_match. Qed.

(** Nothing ever gives the index an own property. *)
Lemma dispatch_ownProperties rt e :
  JsMap.ownProperties (locationDevices (controller (dispatch rt e)))
  = JsMap.ownProperties (locationDevices (controller rt)).
Proof.
  destruct e as [f| | | |f| |records| | |nativeId|id nativeId|mode| |v];
    simpl; try done.
  - by case_match.
  - by repeat case_match.
  - by repeat case_match.
  - by case_match.
  - by repeat case_match.
  - by repeat case_match.
  - repeat case_match; try done.
    match goal with |- context [discoverDevices_resume _ ?d ?r ?x] =>
      destruct (discoverDevices_resume_closed vendor d r x) as (-> & _) end.
    simpl. apply entries_indexDevices.
  - by repeat case_match.
  - rewrite discoverDevices_begin_closed. simpl.
    by destruct (entries_indexCameras
      (Location.cameras (location (controller rt)))
      (JsMap.clear (locationDevices (controller rt)))) as [_ ->].
  - by destruct (getDevice_frame nativeId rt) as (_ & _ & -> & _).
  - by destruct (armSecuritySystem_frame mode rt) as (-> & _).
Qed.

Lemma replay_on_controller modes rt :
  fold_left (λ rt f, on_controller (updateLocationMode f) rt) modes rt
  = on_controller
      (λ this, fold_left (λ this f, updateLocationMode f this) modes this) rt.
Proof.
  revert rt. induction modes as [|f modes IH]; intros rt; simpl.
  - by destruct rt.
  - by rewrite IH.
Qed.

Lemma replay_closed modes plugin location
    (cache : JsMap.t Ref) (index : JsMap.t LocationRecord) stored :
  let this :=
    fold_left (λ this f, updateLocationMode f this) modes
      {| plugin := plugin; location := location; devices := cache;
         locationDevices := index; securitySystemState := stored |} in
  this
  = {| plugin := plugin; location := location; devices := cache;
       locationDevices := index;
       securitySystemState := securitySystemState this |}
  ∧ securitySystemState this
    = match last modes with
      | None => stored
      | Some f =>
          securitySystemState
            (updateLocationMode f
               {| plugin := plugin; location := location; devices := cache;
                  locationDevices := index; securitySystemState := stored |})
      end.
Proof.
  revert stored. induction modes as [|f modes IH]; intros stored; [done|].
  cbn [fold_left]. cbn zeta in IH.
  destruct (IH (securitySystemState
                  (updateLocationMode f
                     {| plugin := plugin; location := location;
                        devices := cache; locationDevices := index;
                        securitySystemState := stored |}))) as [H1 H2].
  split; [exact H1|]. etrans; [exact H2|].
  rewrite last_cons. by destruct (last modes).
Qed.

Lemma constructor_closed plugin location stored :
  constructor plugin location stored
  = let this :=
      {| plugin := plugin; location := location;
         devices := JsMap.new;
         locationDevices := indexCameras (Location.cameras location) JsMap.new;
         securitySystemState :=
           securitySystemState (subscribed plugin location stored) |} in
    {| controller :=
         if Location.hasAlarmBaseStation location
         then match securitySystemState (subscribed plugin location stored) with
              | None => updateLocationMode "disabled" this
              | Some _ => this
              end
         else this;
       heap := [];
       subscribedToLocationMode := true;
       subscribedToPanel := false;
       pending :=
         [PendingSecurityPanel]
         ++ (if Location.hasAlarmBaseStation location
             then [PendingLocationMode] else [])
         ++ [PendingDevices true (cameraDevice location <$> Location.cameras location)];
       vendorCalls := []; published := []; console := [];
       unhandledRejections := [] |}.
Proof.
  unfold constructor. rewrite replay_on_controller.
  change (on_controller _ (set_subscribedToLocationMode true _)) with
    {| controller := subscribed plugin location stored;
       heap := []; subscribedToLocationMode := true;
       subscribedToPanel := false; pending := [];
       vendorCalls := []; published := []; console := [];
       unhandledRejections := [] |}.
  destruct (replay_closed (Location.onLocationMode location) plugin location
              JsMap.new JsMap.new stored) as [Heta _].
  cbn zeta in Heta. fold (subscribed plugin location stored) in Heta.
  remember (securitySystemState (subscribed plugin location stored))
    as snapshot eqn:Hsnapshot.
  rewrite Heta. clear Heta Hsnapshot.
  cbn zeta. rewrite discoverDevices_begin_closed.
  destruct (Location.hasAlarmBaseStation location), snapshot; reflexivity.
Qed.

(** What line 96 leaves in the snapshot: what the host held, or what
    [updateLocationMode] writes for the last mode that the feed replays. *)
Lemma subscribed_snapshot settings location stored (this : RingLocationDevice) :
  plugin this = settings →
  securitySystemState (subscribed settings location stored)
  = match last (Location.onLocationMode location) with
    | None => stored
    | Some f => securitySystemState (updateLocationMode f this)
    end.
Proof.
  intros <-.
  destruct (replay_closed (Location.onLocationMode location)
              (plugin this) location JsMap.new JsMap.new stored)
    as [_ H].
  cbn zeta in H. unfold subscribed. rewrite H. unfold LocationMode.
  destruct (last (Location.onLocationMode location)); reflexivity.
Qed.

Lemma constructor_subscribed settings location stored :
  securitySystemState (subscribed settings location stored)
  = match last (Location.onLocationMode location) with
    | None => stored
    | Some f =>
        securitySystemState
          (updateLocationMode f (controller (constructor settings location stored)))
    end.
Proof.
  apply subscribed_snapshot. rewrite constructor_closed. cbn zeta.
  by destruct (Location.hasAlarmBaseStation location),
       (securitySystemState (subscribed settings location stored)).
Qed.

Lemma reachable_ownProperties rt :
  reachable rt → JsMap.ownProperties (locationDevices (controller rt)) = [].
Proof.
  revert rt. apply reachable_ind; [intros plugin location stored|intros rt e _ IH].
  - rewrite constructor_closed. simpl.
    destruct (Location.hasAlarmBaseStation location),
      (securitySystemState (subscribed plugin location stored)); simpl;
      apply (entries_indexCameras (Location.cameras location) JsMap.new).
  - by rewrite dispatch_ownProperties.
Qed.

(** [Object.values] of the index is empty in every state of the controller,
    so the [filter] of line 260 has nothing to keep. *)
Lemma bypassContactSensors_reachable rt :
  reachable rt → bypassContactSensors vendor (controller rt) = [].
Proof.
  intros H. unfold bypassContactSensors, JsMap.Object_values.
  by rewrite reachable_ownProperties.
Qed.

(** Arming [NightArmed]: the command is chosen by the setting, and its bypass
    list is [Object.values] of the index, filtered. *)
Lemma armSecuritySystem_night rt :
  (armSecuritySystem (Member NightArmed) rt).1
  = SettlesAs
      ((if decide (nightModeBypassAlarmState (plugin (controller rt)) = "Away")
        then armAway else armHome)
         (Some (bypassContactSensors vendor (controller rt)))).
Proof.
  unfold armSecuritySystem.
  destruct (String.eqb_spec
              (nightModeBypassAlarmState (plugin (controller rt))) "Away");
    by case_decide.
Qed.

(** *** Who writes the snapshot *)

Lemma dispatch_snapshot rt e :
  securitySystemState (controller (dispatch rt e))
  = securitySystemState (controller rt)
  ∨ ∃ f, (e = LocationModeEmitted f ∨ e = LocationModeFetched f)
         ∧ securitySystemState (controller (dispatch rt e))
           = securitySystemState (updateLocationMode f (controller rt)).
Proof.
  destruct e as [f| | | |f| |records| | |nativeId|id nativeId|mode| |v].
  - simpl. destruct (subscribedToLocationMode rt); [right|by left].
    exists f. split; [by left|done].
  - left. simpl. by repeat case_match.
  - left. simpl. by repeat case_match.
  - left. simpl. by case_match.
  - simpl. destruct (settle isPendingLocationMode (pending rt)) as [[? ?]|];
      [right|by left].
    exists f. split; [by right|done].
  - left. simpl. by repeat case_match.
  - left. simpl. repeat case_match; try done.
    match goal with |- context [discoverDevices_resume _ ?d ?r ?x] =>
      by destruct (discoverDevices_resume_closed vendor d r x) as (-> & _) end.
  - left. simpl. by repeat case_match.
  - left. simpl. by rewrite discoverDevices_begin_closed.
  - left. simpl.
    by destruct (getDevice_frame nativeId rt) as (_ & _ & _ & -> & _).
  - by left.
  - left. simpl. by destruct (armSecuritySystem_frame mode rt) as (-> & _).
  - by left.
  - by left.
Qed.

Lemma dispatch_snapshot_is_Some rt e :
  is_Some (securitySystemState (controller rt)) →
  is_Some (securitySystemState (controller (dispatch rt e))).
Proof.
  intros H. destruct (dispatch_snapshot rt e) as [->|(f & _ & ->)]; [done|].
  apply updateLocationMode_is_Some.
Qed.

Lemma run_snapshot_is_Some rt events :
  is_Some (securitySystemState (controller rt)) →
  is_Some (securitySystemState (controller (run rt events))).
Proof.
  revert rt. induction events as [|e events IH]; intros rt H; [done|].
  simpl. apply IH. by apply dispatch_snapshot_is_Some.
Qed.

(** *** Arming and disarming *)

(** C8: [armSecuritySystem], whatever the mode, and [disarmSecuritySystem]
    leave [securitySystemState] (and every other field of the controller) as
    it was; an event that changes the snapshot is an emission of the mode
    feed or the answer to a mode query, and the new snapshot is the one that
    [updateLocationMode] writes. *)
Theorem arm_disarm_keep_snapshot (mode : ModeValue) (rt : Runtime) :
  controller (armSecuritySystem mode rt).2 = controller rt
  ∧ securitySystemState (controller (armSecuritySystem mode rt).2)
    = securitySystemState (controller rt)
  ∧ controller (disarmSecuritySystem rt).2 = controller rt
  ∧ securitySystemState (controller (disarmSecuritySystem rt).2)
    = securitySystemState (controller rt)
  ∧ (∀ e,
       securitySystemState (controller (dispatch rt e))
       ≠ securitySystemState (controller rt) →
       ∃ f, (e = LocationModeEmitted f ∨ e = LocationModeFetched f)
            ∧ securitySystemState (controller (dispatch rt e))
              = securitySystemState (updateLocationMode f (controller rt))).
Proof.
  destruct (armSecuritySystem_frame mode rt) as (Harm & _).
  cbn zeta in Harm. rewrite Harm.
  repeat split; try done.
  intros e Hne. by destruct (dispatch_snapshot rt e) as [Heq|Hf].
Qed.

(** C10: for a mode value that is none of AwayArmed, HomeArmed, NightArmed
    and Disarmed, [armSecuritySystem] resolves at once, calls no vendor
    command and leaves the whole state, the log of vendor calls included,
    as it was. *)
Theorem armSecuritySystem_other_mode (mode : ModeValue) (rt : Runtime)
    (Hmode : mode ∉ [Member AwayArmed; Member HomeArmed;
                     Member NightArmed; Member Disarmed]) :
  armSecuritySystem mode rt = (Resolved, rt)
  ∧ vendorCalls (armSecuritySystem mode rt).2 = vendorCalls rt
  ∧ dispatch rt (ArmSecuritySystemCalled mode) = rt.
Proof.
  assert (armSecuritySystem mode rt = (Resolved, rt)) as H.
  { destruct mode as [[]|v]; [set_solver..|done]. }
  simpl. by rewrite H.
Qed.

(** *** The constructor and the two feeds *)

Lemma dispatch_subscribedToLocationMode rt e :
  subscribedToLocationMode (dispatch rt e) = subscribedToLocationMode rt.
Proof.
  destruct e as [f| | | |f| |records| | |nativeId|id nativeId|mode| |v];
    simpl; try done; try by repeat case_match.
  - repeat case_match; try done.
    match goal with |- context [discoverDevices_resume _ ?d ?r ?x] =>
      by destruct (discoverDevices_resume_closed vendor d r x)
        as (_ & _ & -> & _) end.
  - by rewrite discoverDevices_begin_closed.
  - by destruct (getDevice_frame nativeId rt) as (_ & _ & _ & _ & -> & _).
  - by destruct (armSecuritySystem_frame mode rt) as (_ & _ & -> & _).
Qed.

Lemma reachable_subscribedToLocationMode rt :
  reachable rt → subscribedToLocationMode rt = true.
Proof.
  revert rt. apply reachable_ind; [intros plugin location stored|intros rt e _ IH].
  - by rewrite constructor_closed.
  - by rewrite dispatch_subscribedToLocationMode.
Qed.

Lemma settle_filter_same p l x rest :
  settle p l = Some (x, rest) → List.filter p l = x :: List.filter p rest.
Proof.
  revert x rest. induction l as [|a l IH]; intros x rest; simpl; [done|].
  destruct (p a) eqn:Hpa.
  - by intros [= <- <-].
  - destruct (settle p l) as [[y rest']|]; [|done].
    intros [= <- <-]. simpl. rewrite Hpa. by apply IH.
Qed.

Lemma settle_filter_other p q l x rest :
  settle p l = Some (x, rest) → q x = false →
  List.filter q rest = List.filter q l.
Proof.
  revert x rest. induction l as [|a l IH]; intros x rest; simpl; [done|].
  destruct (p a) eqn:Hpa.
  - intros [= <- <-] Hq. by rewrite Hq.
  - destruct (settle p l) as [[y rest']|]; [|done].
    intros [= <- <-] Hq. simpl. by rewrite (IH _ _ eq_refl Hq).
Qed.

(** Only the settlement of [getSecurityPanel] touches [panelsPending], and
    only its resolution subscribes to the panel. *)
Lemma dispatch_panel rt e :
  (panelsPending (dispatch rt e) = panelsPending rt
   ∧ subscribedToPanel (dispatch rt e) = subscribedToPanel rt)
  ∨ (∃ x, panelsPending rt = x :: panelsPending (dispatch rt e))
    ∧ (e = SecurityPanelResolved
       ∨ e = SecurityPanelRejected
          ∧ subscribedToPanel (dispatch rt e) = subscribedToPanel rt).
Proof.
  unfold panelsPending.
  destruct e as [f| | | |f| |records| | |nativeId|id nativeId|mode| |v]; simpl.
  - left. by case_match.
  - destruct (settle _ _) as [[x rest]|] eqn:Hs; [right|by left].
    split; [|by left]. exists x. by apply settle_filter_same.
  - destruct (settle _ _) as [[x rest]|] eqn:Hs; [right|by left].
    split; [|by right]. exists x. by apply settle_filter_same.
  - left. case_match; [|done]. simpl.
    by rewrite List.filter_app, app_nil_r.
  - left. destruct (settle _ _) as [[x rest]|] eqn:Hs; [|done]. simpl.
    split; [|done]. eapply settle_filter_other; [done|].
    apply settle_Some in Hs as (Hx & _). by destruct x.
  - left. destruct (settle _ _) as [[x rest]|] eqn:Hs; [|done]. simpl.
    split; [|done]. eapply settle_filter_other; [done|].
    apply settle_Some in Hs as (Hx & _). by destruct x.
  - left. destruct (settle _ _) as [[x rest]|] eqn:Hs; [|done].
    pose proof Hs as (Hx & _)%settle_Some.
    destruct x as [| |floating devices]; try done.
    destruct (discoverDevices_resume_closed vendor devices records
                (set_pending rest rt)) as (_ & _ & _ & -> & -> & _).
    simpl. split; [|done]. by eapply settle_filter_other.
  - left. destruct (settle _ _) as [[x rest]|] eqn:Hs; [|done].
    pose proof Hs as (Hx & _)%settle_Some.
    destruct x as [| |[] devices]; try done; simpl;
      (split; [|done]); by eapply settle_filter_other.
  - left. rewrite discoverDevices_begin_closed. simpl.
    by rewrite List.filter_app, app_nil_r.
  - left.
    by destruct (getDevice_frame nativeId rt)
      as (_ & _ & _ & _ & _ & -> & -> & _).
  - by left.
  - left.
    by destruct (armSecuritySystem_frame mode rt) as (_ & _ & _ & -> & -> & _).
  - by left.
  - by left.
Qed.

Lemma reachable_panelsPending rt :
  reachable rt → length (panelsPending rt) ≤ 1.
Proof.
  revert rt. apply reachable_ind; [intros plugin location stored|intros rt e _ IH].
  - rewrite constructor_closed. unfold panelsPending. simpl.
    by destruct (Location.hasAlarmBaseStation location).
  - destruct (dispatch_panel rt e) as [[-> _]|[[x Hx] _]]; [done|].
    rewrite Hx in IH. simpl in IH. lia.
Qed.

(** Without a panel, and with no promise of one, there is never a panel. *)
Lemma run_without_panel rt events :
  panelsPending rt = [] → subscribedToPanel rt = false →
  subscribedToPanel (run rt events) = false.
Proof.
  revert rt. induction events as [|e events IH]; intros rt Hp Hs; [done|].
  simpl. destruct (dispatch_panel rt e) as [[Hp' Hs']|[[x Hx] _]].
  - apply IH; congruence.
  - by rewrite Hp in Hx.
Qed.

(** C7: the constructor subscribes to the mode feed and returns with no
    rejection left unhandled and nothing on the console.  When the promise of
    [getSecurityPanel] rejects, at whatever moment after construction, the
    rejection changes nothing but the list of pending promises: no unhandled
    rejection, no line on the console, the controller as it was.  The mode
    feed stays subscribed and its next emission is applied; if no panel was
    subscribed before, none ever is. *)
Theorem panel_rejection_is_absorbed
    (plugin : RingPlugin) (location : Location.t)
    (stored : option SecuritySystemState) (events : list Event) :
  let rt0 := constructor plugin location stored in
  let rt := run rt0 events in
  let rt' := dispatch rt SecurityPanelRejected in
  (subscribedToLocationMode rt0 = true
   ∧ unhandledRejections rt0 = [] ∧ console rt0 = [])
  ∧ (controller rt' = controller rt ∧ heap rt' = heap rt
     ∧ unhandledRejections rt' = unhandledRejections rt
     ∧ console rt' = console rt
     ∧ vendorCalls rt' = vendorCalls rt ∧ published rt' = published rt
     ∧ subscribedToPanel rt' = subscribedToPanel rt)
  ∧ subscribedToLocationMode rt' = true
  ∧ (∀ f, securitySystemState
            (controller (dispatch rt' (LocationModeEmitted f)))
          = securitySystemState (updateLocationMode f (controller rt)))
  ∧ (∀ later, subscribedToPanel rt = false →
              subscribedToPanel (run rt' later) = false).
Proof.
  intros rt0 rt rt'.
  assert (reachable rt) as Hreach by (by exists plugin, location, stored, events).
  assert (subscribedToLocationMode rt' = true) as Hsub.
  { apply reachable_subscribedToLocationMode. by apply reachable_dispatch. }
  assert (controller rt' = controller rt ∧ heap rt' = heap rt
     ∧ unhandledRejections rt' = unhandledRejections rt
     ∧ console rt' = console rt
     ∧ vendorCalls rt' = vendorCalls rt ∧ published rt' = published rt
     ∧ subscribedToPanel rt' = subscribedToPanel rt) as Hframe.
  { subst rt'. simpl. by repeat case_match. }
  split; [|split; [done|split; [done|split]]].
  - subst rt0. by rewrite constructor_closed.
  - intros f. simpl. rewrite Hsub. simpl. by destruct Hframe as (-> & _).
  - intros later Hnone. apply run_without_panel.
    + pose proof (reachable_panelsPending rt Hreach) as Hone.
      subst rt'. unfold panelsPending in *. simpl.
      destruct (settle _ _) as [[x rest]|] eqn:Hs; simpl.
      * apply settle_filter_same in Hs. rewrite Hs in Hone. simpl in Hone.
        destruct (List.filter _ rest); [done|simpl in Hone; lia].
      * destruct (List.filter _ (pending rt)) as [|y l] eqn:Hf; [done|].
        exfalso. clear -Hs Hf.
        assert (y ∈ List.filter isPendingSecurityPanel (pending rt)) as Hy
          by (rewrite Hf; set_solver).
        apply list_elem_of_In, List.filter_In in Hy as [Hy1 Hy2].
        clear Hf. induction (pending rt) as [|a l' IH]; simpl in *; [done|].
        destruct Hy1 as [->|Hy1]; [by rewrite Hy2 in Hs|].
        destruct (isPendingSecurityPanel a); [done|].
        destruct (settle isPendingSecurityPanel l') as [[? ?]|]; [done|].
        by apply IH.
    + by destruct Hframe as (_ & _ & _ & _ & _ & _ & ->).
Qed.

(** C3, as the code has it: with an alarm base station the constructor
    starts one query of the current mode, which is still pending when the
    constructor returns; the test for a missing snapshot runs before the
    answer can be applied, so the snapshot is initialised to Disarmed exactly
    when no snapshot exists at that moment, that is when the host had none
    stored and the mode feed has replayed nothing to the subscription of
    line 96; the answer of the query, once it arrives, is applied through
    [updateLocationMode]; and from the constructor on the snapshot is never
    missing. *)
Theorem constructor_with_base_station
    (plugin : RingPlugin) (location : Location.t)
    (stored : option SecuritySystemState)
    (Hbase : Location.hasAlarmBaseStation location = true) :
  let rt := constructor plugin location stored in
  let atTest := securitySystemState (subscribed plugin location stored) in
  List.filter isPendingLocationMode (pending rt) = [PendingLocationMode]
  ∧ atTest
    = match last (Location.onLocationMode location) with
      | None => stored
      | Some f => securitySystemState (updateLocationMode f (controller rt))
      end
  ∧ securitySystemState (controller rt)
    = match atTest with
      | Some st => Some st
      | None =>
          Some {| mode := Disarmed; triggered := false;
                  supportedModes :=
                    [Disarmed; AwayArmed; HomeArmed]
                    ++ (if decide (nightModeBypassAlarmState plugin = "Disabled")
                        then [] else [NightArmed]) |}
      end
  ∧ (∀ f, securitySystemState (controller (dispatch rt (LocationModeFetched f)))
          = securitySystemState (updateLocationMode f (controller rt))
          ∧ List.filter isPendingLocationMode
              (pending (dispatch rt (LocationModeFetched f))) = [])
  ∧ (∀ events, is_Some (securitySystemState (controller (run rt events)))).
Proof.
  intros rt atTest.
  pose proof (constructor_subscribed plugin location stored) as Hat.
  fold rt atTest in Hat.
  split; [by subst rt; rewrite constructor_closed, Hbase|].
  split; [exact Hat|]. clear Hat.
  subst rt atTest. rewrite constructor_closed, Hbase. cbn zeta.
  split; [|split].
  - destruct (securitySystemState (subscribed plugin location stored));
      simpl; [done|].
    destruct (String.eqb_spec (nightModeBypassAlarmState plugin) "Disabled");
      by case_decide.
  - intros f.
    by destruct (securitySystemState (subscribed plugin location stored)).
  - intros events. apply run_snapshot_is_Some.
    destruct (securitySystemState (subscribed plugin location stored));
      simpl; eauto.
Qed.

(** *** The cache *)

Lemma new_Returns cls nativeId record instance :
  new RingCameraDevice_new cls nativeId record = Returns instance →
  instance
  = {| class := cls; instanceNativeId := nativeId; device := record |}.
Proof. unfold new. case_match; congruence. Qed.

Lemma getDevice_cached nativeId rt ref :
  JsMap.get nativeId (devices (controller rt)) = Some ref →
  getDevice nativeId rt = (Returns (Some ref), rt).
Proof.
  intros H. unfold getDevice, JsMap.has, JsMap.get in *. by rewrite H.
Qed.

Lemma getDevice_fresh nativeId rt :
  JsMap.get nativeId (devices (controller rt)) = None →
  getDevice nativeId rt
  = match new RingCameraDevice_new (classFor nativeId) nativeId
            (JsMap.get nativeId (locationDevices (controller rt))) with
    | Throws error => (Throws error, rt)
    | Returns instance =>
        (Returns (Some (length (heap rt))),
         on_controller
           (λ this, set_devices
                      (JsMap.set nativeId (length (heap rt)) (devices this))
                      this)
           (set_heap (heap rt ++ [instance]) rt))
    end.
Proof.
  intros H. unfold getDevice, JsMap.has, JsMap.get, classFor in *. rewrite H.
  simpl. case_match; [|done]. simpl. by rewrite lookup_insert_eq.
Qed.

(** A '-sensor' or '-lock' identifier without a record in the index: the
    constructor throws, and the call leaves no trace. *)
Lemma getDevice_throws nativeId rt :
  JsMap.get nativeId (devices (controller rt)) = None →
  classFor nativeId ≠ RingCameraDevice →
  JsMap.get nativeId (locationDevices (controller rt)) = None →
  getDevice nativeId rt = (Throws "TypeError", rt).
Proof.
  intros Hcache Hclass Hindex. rewrite getDevice_fresh, Hindex by done.
  unfold new. by destruct (classFor nativeId).
Qed.

(** With the record in the index, a '-sensor' or '-lock' identifier always
    gets its instance. *)
Lemma getDevice_returns nativeId rt record :
  classFor nativeId ≠ RingCameraDevice →
  JsMap.get nativeId (locationDevices (controller rt)) = Some record →
  ∃ ref rt1, getDevice nativeId rt = (Returns (Some ref), rt1).
Proof.
  intros Hclass Hindex.
  destruct (JsMap.get nativeId (devices (controller rt))) as [ref|] eqn:Hcache.
  - exists ref, rt. by apply getDevice_cached.
  - rewrite getDevice_fresh, Hindex by done.
    unfold new. destruct (classFor nativeId); try done; eauto.
Qed.

(** An entry of the cache is never replaced. *)
Lemma dispatch_devices rt e nativeId ref :
  JsMap.get nativeId (devices (controller rt)) = Some ref →
  JsMap.get nativeId (devices (controller (dispatch rt e))) = Some ref.
Proof.
  intros H.
  destruct e as [f| | | |f| |records| | |other|id other|mode| |v];
    simpl; try done; try by repeat case_match.
  - repeat case_match; try done.
    match goal with |- context [discoverDevices_resume _ ?d ?r ?x] =>
      by destruct (discoverDevices_resume_closed vendor d r x) as (-> & _) end.
  - by rewrite discoverDevices_begin_closed.
  - destruct (JsMap.get other (devices (controller rt))) as [ref'|] eqn:Ho.
    + by rewrite (getDevice_cached _ _ _ Ho).
    + rewrite getDevice_fresh by done. case_match; [|done]. simpl.
      unfold JsMap.get in *. simpl. rewrite lookup_insert_ne; [done|].
      intros ->. congruence.
  - by destruct (armSecuritySystem_frame mode rt) as (-> & _).
Qed.

Lemma run_devices rt events nativeId ref :
  JsMap.get nativeId (devices (controller rt)) = Some ref →
  JsMap.get nativeId (devices (controller (run rt events))) = Some ref.
Proof.
  revert rt. induction events as [|e events IH]; intros rt H; [done|].
  simpl. apply IH. by apply dispatch_devices.
Qed.

(** Objects are only ever added to the heap. *)
Lemma dispatch_heap rt e :
  heap (dispatch rt e) = heap rt
  ∨ ∃ nativeId instance,
      e = GetDeviceCalled nativeId
      ∧ JsMap.get nativeId (devices (controller rt)) = None
      ∧ instanceNativeId instance = nativeId
      ∧ class instance = classFor nativeId
      ∧ heap (dispatch rt e) = heap rt ++ [instance]
      ∧ JsMap.entries (devices (controller (dispatch rt e)))
        = <[nativeId := length (heap rt)]> (JsMap.entries (devices (controller rt))).
Proof.
  destruct e as [f| | | |f| |records| | |other|id other|mode| |v];
    simpl; try (by left); try (left; by repeat case_match).
  - left. repeat case_match; try done.
    match goal with |- context [discoverDevices_resume _ ?d ?r ?x] =>
      by destruct (discoverDevices_resume_closed vendor d r x)
        as (_ & -> & _) end.
  - left. by rewrite discoverDevices_begin_closed.
  - destruct (JsMap.get other (devices (controller rt))) as [ref'|] eqn:Ho.
    + left. by rewrite (getDevice_cached _ _ _ Ho).
    + rewrite getDevice_fresh by done.
      destruct (new _ _ _ _) as [instance|] eqn:Hnew; [|by left].
      apply new_Returns in Hnew as ->. right.
      exists other,
        {| class := classFor other; instanceNativeId := other;
           device := JsMap.get other (locationDevices (controller rt)) |}.
      by repeat split.
  - left. by destruct (armSecuritySystem_frame mode rt) as (_ & -> & _).
Qed.

(** In every state of the controller, the object at address [i] of the heap
    is the one that the cache holds for its identifier. *)
Lemma reachable_heap rt :
  reachable rt →
  ∀ i instance, heap rt !! i = Some instance →
    JsMap.get (instanceNativeId instance) (devices (controller rt)) = Some i.
Proof.
  revert rt.
  apply (reachable_ind (λ rt, ∀ i instance, heap rt !! i = Some instance →
    JsMap.get (instanceNativeId instance) (devices (controller rt)) = Some i));
    [intros plugin location stored|intros rt e _ IH].
  - rewrite constructor_closed. simpl. intros i instance H. by destruct i.
  - intros i instance Hi.
    destruct (dispatch_heap rt e)
      as [Heq|(nativeId & new & -> & Hnone & Hid & _ & Hheap & Hdev)].
    + rewrite Heq in Hi. apply dispatch_devices. by apply IH.
    + rewrite Hheap in Hi. unfold JsMap.get in *. rewrite Hdev.
      apply lookup_app_Some in Hi as [Hi|[Hlen Hi]].
      * rewrite lookup_insert_ne; [by apply IH|].
        intros Heq. apply IH in Hi. rewrite <- Heq in Hi. congruence.
      * apply list_lookup_singleton_Some in Hi as [Hi <-].
        rewrite Hid, lookup_insert_eq. f_equal. lia.
Qed.

(** So no two objects of the heap were built for the same identifier. *)
Lemma reachable_heap_NoDup rt :
  reachable rt → NoDup (instanceNativeId <$> heap rt).
Proof.
  intros H. apply NoDup_alt. intros i j nativeId Hi Hj.
  apply list_lookup_fmap_Some in Hi as (x & ? & Hx).
  apply list_lookup_fmap_Some in Hj as (y & ? & Hy).
  apply (reachable_heap rt H) in Hx, Hy. subst. congruence.
Qed.

(** C5, as the code has it: when a call of [getDevice] returns, it returns
    the reference that the cache holds for the identifier; if the cache had
    none, the call has built one object, of the class that the suffix
    selects, on the record that the index holds for the identifier, and has
    stored it; a second call returns the same reference and changes
    nothing, and so does every later call, whatever happens in between. *)
Theorem getDevice_memoised
    (nativeId : string) (rt rt1 : Runtime) (r : option Ref)
    (Hfirst : getDevice nativeId rt = (Returns r, rt1)) :
  ∃ ref,
    r = Some ref
    ∧ JsMap.get nativeId (devices (controller rt1)) = Some ref
    ∧ match JsMap.get nativeId (devices (controller rt)) with
      | Some cached => ref = cached ∧ rt1 = rt
      | None =>
          ref = length (heap rt)
          ∧ heap rt1
            = heap rt
              ++ [{| class := classFor nativeId;
                     instanceNativeId := nativeId;
                     device :=
                       JsMap.get nativeId (locationDevices (controller rt)) |}]
      end
    ∧ getDevice nativeId rt1 = (Returns (Some ref), rt1)
    ∧ (∀ events,
         getDevice nativeId (run rt1 events)
         = (Returns (Some ref), run rt1 events)).
Proof.
  destruct (JsMap.get nativeId (devices (controller rt))) as [cached|] eqn:Hc.
  - rewrite (getDevice_cached _ _ _ Hc) in Hfirst. simplify_eq.
    exists cached. repeat split; try done.
    + by apply getDevice_cached.
    + intros events. by apply getDevice_cached, run_devices.
  - rewrite getDevice_fresh in Hfirst by done.
    destruct (new _ _ _ _) as [instance|] eqn:Hnew; simplify_eq.
    apply new_Returns in Hnew as ->.
    assert (JsMap.get nativeId
              (devices (controller
                 (on_controller
                    (λ this, set_devices
                       (JsMap.set nativeId (length (heap rt)) (devices this))
                       this)
                    (set_heap (heap rt ++ [
                       {| class := classFor nativeId;
                          instanceNativeId := nativeId;
                          device := JsMap.get nativeId
                                      (locationDevices (controller rt)) |}])
                       rt))))
            = Some (length (heap rt))) as Hstored.
    { unfold JsMap.get. simpl. by rewrite lookup_insert_eq. }
    exists (length (heap rt)). repeat split; try done.
    + by apply getDevice_cached.
    + intros events. by apply getDevice_cached, run_devices.
Qed.

(** [discoverDevices] is what the events make of a call that nothing
    interleaves with: the call, then the answer of [getDevices]. *)
Lemma discoverDevices_as_events rt records :
  settle isPendingDevices (pending rt) = None →
  run rt [DiscoverDevicesCalled; DevicesFetched records]
  = discoverDevices vendor records rt.
Proof.
  intros Hnone. simpl. rewrite discoverDevices_begin_closed. simpl.
  assert (∀ l x, settle isPendingDevices l = None → isPendingDevices x = true →
            settle isPendingDevices (l ++ [x]) = Some (x, l)) as Hsettle.
  { induction l as [|a l IH]; intros x Hl Hx; simpl in *; [by rewrite Hx|].
    destruct (isPendingDevices a); [done|].
    destruct (settle isPendingDevices l) as [[? ?]|] eqn:Hs; [done|].
    by rewrite (IH x eq_refl Hx). }
  rewrite Hsettle by done.
  unfold discoverDevices. rewrite cameraLoop_closed. simpl.
  by destruct rt.
Qed.
End ControllerFacts.

(** A run with one record. *)
Lemma disabled_device_not_discovered_witness :
  let d := sampleDevice "4" "sensor.contact" (Some "disabled") "full" None in
  let rt := constructor samplePlugin (sampleLocation []) None in
  RingDeviceData.status (RingDevice.data d) = Some "disabled"
  ∧ classify sampleTypes (location (controller rt)) d = None
  ∧ discoverDevices sampleTypes ([] ++ d :: []) rt
    = discoverDevices sampleTypes ([] ++ []) rt.
Proof.
  intros d rt. split; [reflexivity|].
  destruct (disabled_device_not_discovered sampleTypes [] [] d rt eq_refl)
    as (H1 & H2 & _).
  exact (conj H1 H2).
Defined.

(** C2 fails on the camera loop: a camera whose status is "disabled" has its
    descriptor published. *)
Lemma disabled_camera_is_discovered :
  let camera := sampleCamera "7" (Some "disabled") in
  let location := sampleLocation [camera] in
  let rt :=
    run sampleTypes sampleCameraNew
      (constructor samplePlugin location None) [DevicesFetched []] in
  CameraData.status (RingCamera.data camera) = Some "disabled"
  ∧ published rt
    = [{| DeviceManifest.providerNativeId := "home";
          DeviceManifest.devices := [cameraDevice location camera] |}]
  ∧ JsMap.get "7" (locationDevices (controller rt)) = Some (IsCamera camera).
Proof. by vm_compute. Qed.

(** C9 fails when only the status differs: of two contact sensors with the
    same type tag and the same battery status, the enabled one is described
    and the disabled one is left out. *)
Lemma classification_depends_on_status :
  let d1 := sampleDevice "1" "sensor.contact" (Some "ok") "full" None in
  let d2 := sampleDevice "2" "sensor.contact" (Some "disabled") "full" None in
  RingDevice.deviceType d1 = RingDevice.deviceType d2
  ∧ hasBattery d1 = hasBattery d2
  ∧ is_Some (classify sampleTypes (sampleLocation []) d1)
  ∧ classify sampleTypes (sampleLocation []) d2 = None.
Proof. vm_compute. eauto. Qed.

(** ** Concrete runs *)

(** C1: two faulted contact sensors S1 and S2 and a closed one, S3, are in
    the index; the filter of line 261 would keep S1 and S2; yet arming
    NightArmed calls arm-away with an empty bypass list, because
    [Object.values] of a [Map] has no entry of the map. *)
Lemma night_arming_bypasses_nothing :
  let s1 := sampleDevice "S1" "sensor.contact" (Some "ok") "full" (Some true) in
  let s2 := sampleDevice "S2" "sensor.contact" (Some "ok") "full" (Some true) in
  let s3 := sampleDevice "S3" "sensor.contact" (Some "ok") "full" (Some false) in
  let rt :=
    run sampleTypes sampleCameraNew
      (constructor samplePlugin (sampleLocation []) None)
      [DevicesFetched [s1; s2; s3]] in
  JsMap.get "S1-sensor" (locationDevices (controller rt)) = Some (IsDevice s1)
  ∧ JsMap.get "S2-sensor" (locationDevices (controller rt)) = Some (IsDevice s2)
  ∧ JsMap.get "S3-sensor" (locationDevices (controller rt)) = Some (IsDevice s3)
  ∧ idOf <$> List.filter (isFaultedContactSensor sampleTypes)
               [IsDevice s1; IsDevice s2; IsDevice s3]
    = ["S1"; "S2"]
  ∧ (armSecuritySystem sampleTypes (Member NightArmed) rt).1
    = SettlesAs (armAway (Some [])).
Proof. by vm_compute. Qed.

(** C3 fails on the order of events: with nothing stored and a mode feed
    that has nothing to replay, the constructor has initialised the snapshot
    to Disarmed while the query of the current mode is still pending; the
    answer 'away' is applied afterwards, over a snapshot that exists. *)
Lemma forced_initialisation_before_fetch :
  let rt := constructor samplePlugin (sampleLocation []) None in
  let rt' := dispatch sampleTypes sampleCameraNew rt (LocationModeFetched "away") in
  Location.hasAlarmBaseStation (sampleLocation []) = true
  ∧ Location.onLocationMode (sampleLocation []) = []
  ∧ pending rt = [PendingSecurityPanel; PendingLocationMode; PendingDevices true []]
  ∧ securitySystemState (controller rt)
    = Some {| mode := Disarmed; triggered := false;
              supportedModes := [Disarmed; AwayArmed; HomeArmed; NightArmed] |}
  ∧ pending rt' = [PendingSecurityPanel; PendingDevices true []]
  ∧ securitySystemState (controller rt')
    = Some {| mode := AwayArmed; triggered := false;
              supportedModes := [Disarmed; AwayArmed; HomeArmed; NightArmed] |}.
Proof. by vm_compute. Qed.

(** A location with a base station and nothing stored by the host, first
    with a feed that replays nothing, then with one that replays 'away'. *)
Lemma constructor_with_base_station_witness :
  let replaying :=
    {| Location.id := "home"; Location.cameras := [];
       Location.hasAlarmBaseStation := true;
       Location.onLocationMode := ["away"] |} in
  Location.hasAlarmBaseStation (sampleLocation []) = true
  ∧ Location.hasAlarmBaseStation replaying = true
  ∧ securitySystemState
      (controller (constructor samplePlugin (sampleLocation []) None))
    = Some {| mode := Disarmed; triggered := false;
              supportedModes := [Disarmed; AwayArmed; HomeArmed; NightArmed] |}
  ∧ securitySystemState (controller (constructor samplePlugin replaying None))
    = Some {| mode := AwayArmed; triggered := false;
              supportedModes := [Disarmed; AwayArmed; HomeArmed; NightArmed] |}.
Proof.
  intros replaying. split; [reflexivity|]. split; [reflexivity|].
  split.
  - exact (proj1 (proj2 (proj2
      (constructor_with_base_station sampleTypes sampleCameraNew
         samplePlugin (sampleLocation []) None eq_refl)))).
  - exact (proj1 (proj2 (proj2
      (constructor_with_base_station sampleTypes sampleCameraNew
         samplePlugin replaying None eq_refl)))).
Defined.

(** C5 fails for an identifier without a record in the index: both calls
    throw, nothing is built and nothing is stored. *)
Lemma getDevice_throws_without_record :
  let rt := constructor samplePlugin (sampleLocation []) None in
  let first := getDevice sampleCameraNew "9-sensor" rt in
  let second := getDevice sampleCameraNew "9-sensor" first.2 in
  first.1 = Throws "TypeError"
  ∧ second.1 = Throws "TypeError"
  ∧ heap second.2 = []
  ∧ JsMap.get "9-sensor" (devices (controller second.2)) = None.
Proof. by vm_compute. Qed.

(** A sensor that discovery has indexed. *)
Lemma getDevice_memoised_witness :
  let s1 := sampleDevice "1" "sensor.contact" (Some "ok") "full" None in
  let rt :=
    run sampleTypes sampleCameraNew
      (constructor samplePlugin (sampleLocation []) None)
      [DevicesFetched [s1]] in
  let rt1 := (getDevice sampleCameraNew "1-sensor" rt).2 in
  ∃ ref,
    getDevice sampleCameraNew "1-sensor" rt = (Returns (Some ref), rt1)
    ∧ getDevice sampleCameraNew "1-sensor" rt1 = (Returns (Some ref), rt1).
Proof.
  intros s1 rt rt1.
  assert (getDevice sampleCameraNew "1-sensor" rt = (Returns (Some 0), rt1))
    as Hfirst by (by vm_compute).
  destruct (getDevice_memoised sampleTypes sampleCameraNew
              "1-sensor" rt rt1 (Some 0) Hfirst)
    as (ref & Href & _ & _ & Hsecond & _).
  exists ref. split; [|exact Hsecond].
  rewrite Hfirst. by rewrite Href.
Defined.

(** A value that is no member of the enum. *)
Lemma armSecuritySystem_other_mode_witness :
  let rt := constructor samplePlugin (sampleLocation []) None in
  (OffEnum "Vacation" ∉ [Member AwayArmed; Member HomeArmed;
                         Member NightArmed; Member Disarmed])
  ∧ armSecuritySystem sampleTypes (OffEnum "Vacation") rt = (Resolved, rt).
Proof.
  intros rt.
  assert (OffEnum "Vacation" ∉ [Member AwayArmed; Member HomeArmed;
                                Member NightArmed; Member Disarmed]) as Hmode.
  { rewrite !elem_of_cons, elem_of_nil. by intros [|[|[|[|]]]]. }
  split; [exact Hmode|].
  exact (proj1 (armSecuritySystem_other_mode sampleTypes sampleCameraNew
                  (OffEnum "Vacation") rt Hmode)).
Defined.

(** Two motion sensors that differ in name and identifier only. *)
Lemma classification_determined_witness :
  let d1 := sampleDevice "1" "sensor.motion" (Some "ok") "full" None in
  let d2 := sampleDevice "2" "sensor.motion" (Some "ok") "low" (Some true) in
  match classify sampleTypes (sampleLocation []) d1,
        classify sampleTypes (sampleLocation []) d2 with
  | Some x, Some y =>
      sameClass x y
      ∧ ∃ suffix, Device.nativeId x = RingDevice.id d1 +:+ suffix
                  ∧ Device.nativeId y = RingDevice.id d2 +:+ suffix
  | None, None => True
  | _, _ => False
  end.
Proof.
  intros d1 d2.
  exact (proj1 (classification_determined sampleTypes)
           (sampleLocation []) d1 d2 eq_refl eq_refl eq_refl).
Defined.

(** * Further properties *)

(** ** Telemetry *)

Lemma RingSensorDevice_onData_last stream last this :
  RingSensorDevice.onData (stream ++ [last]) this
  = RingSensorDevice.updateState last (RingSensorDevice.onData stream this).
Proof. unfold RingSensorDevice.onData. by rewrite fold_left_app. Qed.

(** X1: after any emissions of [onData], the properties of a [RingSensor]
    are those of the last emission alone, whatever was there before:
    [entryOpen] and [motionDetected] both hold the last [faulted];
    [tampered] is true exactly for the status 'tamper'; [flooded] is true
    exactly when the last [faulted] or the last [flood.faulted] is true, so a
    faulted contact sensor is flooded too. *)
Theorem sensor_shows_last_emission
    (stream : list OnData.t) (last : OnData.t) (this other : RingSensorDevice.t) :
  let st := RingSensorDevice.onData (stream ++ [last]) this in
  let faulted := RingDeviceData.faulted (OnData.data last) in
  st = RingSensorDevice.onData [last] other
  ∧ RingSensorDevice.entryOpen st = faulted
  ∧ RingSensorDevice.motionDetected st = faulted
  ∧ (RingSensorDevice.tampered st = Some true
     ↔ OnData.tamperStatus last = Some "tamper")
  ∧ (RingSensorDevice.flooded st = Some true
     ↔ faulted = Some true
       ∨ ∃ flood, OnData.flood last = Some flood
                  ∧ FloodData.faulted flood = Some true)
  ∧ RingSensorDevice.batteryLevel st = OnData.batteryLevel last.
Proof.
  intros st faulted. subst st faulted.
  rewrite RingSensorDevice_onData_last. simpl.
  repeat split; try done.
  - intros [= H]. by apply bool_decide_eq_true_1 in H.
  - intros H. by rewrite bool_decide_eq_true_2.
  - destruct (OnData.flood last) as [[[[]|]]|]; simpl; eauto.
  - intros [H|(flood & -> & H)]; simpl.
    + rewrite H. by destruct (OnData.flood last) as [[[[]|]]|].
    + by rewrite H.
Qed.

Lemma RingLockDevice_onData_last stream last this :
  RingLockDevice.onData (stream ++ [last]) this
  = RingLockDevice.updateState last (RingLockDevice.onData stream this).
Proof. unfold RingLockDevice.onData. by rewrite fold_left_app. Qed.

(** X2: after any emissions of [onData], the properties of a [RingLock] are
    those of the last emission alone: [lockState] is Locked, Unlocked or
    Jammed exactly for the texts 'locked', 'unlocked' and 'jammed', and is
    undefined for every other value of [locked]; [lock()] and [unlock()] send
    two different commands and leave [lockState] to the next emission. *)
Theorem lock_shows_last_emission
    (stream : list OnData.t) (last : OnData.t) (this other : RingLockDevice.t) :
  let st := RingLockDevice.onData (stream ++ [last]) this in
  st = RingLockDevice.onData [last] other
  ∧ (RingLockDevice.lockState st = Some LockState.Locked
     ↔ OnData.locked last = Some "locked")
  ∧ (RingLockDevice.lockState st = Some LockState.Unlocked
     ↔ OnData.locked last = Some "unlocked")
  ∧ (RingLockDevice.lockState st = Some LockState.Jammed
     ↔ OnData.locked last = Some "jammed")
  ∧ (RingLockDevice.lockState st = None
     ↔ OnData.locked last ∉ [Some "locked"; Some "unlocked"; Some "jammed"])
  ∧ RingLockDevice.batteryLevel st = OnData.batteryLevel last
  ∧ (RingLockDevice.lock st).2 = st ∧ (RingLockDevice.unlock st).2 = st
  ∧ (RingLockDevice.lock st).1 ≠ (RingLockDevice.unlock st).1.
Proof.
  intros st. subst st. rewrite RingLockDevice_onData_last. simpl.
  split; [done|].
  destruct (OnData.locked last) as [locked|]; simpl.
  - destruct (String.eqb_spec locked "locked") as [->|H1];
      [|destruct (String.eqb_spec locked "unlocked") as [->|H2];
        [|destruct (String.eqb_spec locked "jammed") as [->|H3]]];
      rewrite ?elem_of_cons, ?elem_of_nil; naive_solver.
  - rewrite ?elem_of_cons, ?elem_of_nil; naive_solver.
Qed.

(** ** The type tags *)

(** A pattern that opens with [^] can only match from the start. *)
Lemma test_anchored (r : RegExp.t) (s : string) :
  RegExp.test (RegExp.Sequence RegExp.AssertStart r) s
  = RegExp.matchesAt r (String.list_ascii_of_string s) 0.
Proof.
  unfold RegExp.test. cbn zeta.
  generalize (String.list_ascii_of_string s) as input.
  intros input. cbn [seq existsb].
  assert (∀ n start, 0 < start →
            existsb (RegExp.matchesAt (RegExp.Sequence RegExp.AssertStart r) input)
              (seq start n)
            = false) as Hlater.
  { induction n as [|n IH]; intros start Hstart; [done|].
    cbn [seq existsb]. rewrite IH by lia.
    unfold RegExp.matchesAt. simpl. case_decide; [lia|done]. }
  rewrite Hlater, orb_false_r by lia.
  unfold RegExp.matchesAt. simpl. by rewrite app_nil_r.
Qed.

(** X3: the pattern [/^lock($|\.)/] of line 198, tested as [test] does (a
    match may start at any position, [^] holds only at the start and [$]
    only at the end of the input), accepts exactly the tag 'lock' and the
    tags that start with 'lock.'. *)
Theorem matchesLock_iff (s : string) :
  matchesLock s = true ↔ s = "lock" ∨ ∃ rest, s = "lock." +:+ rest.
Proof.
  unfold matchesLock, RegExp.lockPattern. rewrite test_anchored.
  unfold RegExp.matchesAt. split.
  - intros H.
    do 4 (destruct s as [|? s]; [done|]; cbn -[Ascii.eqb] in H;
          match type of H with context [Ascii.eqb ?a ?b] =>
            destruct (Ascii.eqb_spec a b) as [<-|]; [|done] end;
          cbn -[Ascii.eqb] in H; rewrite ?app_nil_r in H).
    destruct s as [|c s]; [by left|right]. cbn -[Ascii.eqb] in H.
    match type of H with context [Ascii.eqb ?a ?b] =>
      destruct (Ascii.eqb_spec a b) as [<-|]; [|done] end.
    by exists s.
  - intros [->|[rest ->]]; [done|]. simpl. done.
Qed.

Section CameraDescriptors.
Variable location : Location.t.

(** X4: in the descriptor of a camera, Camera, MotionSensor and
    RTCSignalingChannel always come first; VideoCamera, Intercom and
    VideoClips are there exactly when the camera is not edge-enabled;
    Battery exactly when it operates on battery; BinarySensor exactly when
    it is a doorbell, which is also when the type is Doorbell;
    DeviceProvider is there once per accessory (light, siren), so the list
    has a duplicate exactly when the camera has both. *)
Theorem cameraDevice_interfaces (camera : RingCamera.t) :
  let device := cameraDevice location camera in
  let interfaces := Device.interfaces device in
  take 3 interfaces
  = [ScryptedInterface.Camera; ScryptedInterface.MotionSensor;
     ScryptedInterface.RTCSignalingChannel]
  ∧ Forall (λ i, i ∈ interfaces ↔ RingCamera.isRingEdgeEnabled camera = false)
      [ScryptedInterface.VideoCamera; ScryptedInterface.Intercom;
       ScryptedInterface.VideoClips]
  ∧ (ScryptedInterface.Battery ∈ interfaces
     ↔ RingCamera.operatingOnBattery camera = true)
  ∧ (ScryptedInterface.BinarySensor ∈ interfaces
     ↔ RingCamera.isDoorbot camera = true)
  ∧ (Device.type device = ScryptedDeviceType.Doorbell
     ↔ RingCamera.isDoorbot camera = true)
  ∧ (Device.type device = ScryptedDeviceType.Camera
     ↔ RingCamera.isDoorbot camera = false)
  ∧ length (filter (λ i, i = ScryptedInterface.DeviceProvider) interfaces)
    = Nat.b2n (RingCamera.hasLight camera) + Nat.b2n (RingCamera.hasSiren camera)
  ∧ (NoDup interfaces
     ↔ ¬ (RingCamera.hasLight camera = true ∧ RingCamera.hasSiren camera = true))
  ∧ Forall (λ i, i ∉ interfaces)
      [ScryptedInterface.TamperSensor; ScryptedInterface.EntrySensor;
       ScryptedInterface.FloodSensor; ScryptedInterface.Lock].
Proof.
  intros device interfaces. subst device interfaces. simpl.
  unfold cameraInterfaces.
  destruct (RingCamera.isRingEdgeEnabled camera),
    (RingCamera.operatingOnBattery camera), (RingCamera.isDoorbot camera),
    (RingCamera.hasLight camera), (RingCamera.hasSiren camera);
    compute_done.
Qed.
End CameraDescriptors.

Section GenericDescriptors.
Variable vendor : RingDeviceType.t.

(** X5: a generic record gets a descriptor exactly when it is not disabled
    and its type tag is one of the six sensor tags or passes the lock test.
    A sensor tag wins over the lock test: the descriptor is then a Sensor
    with the identifier suffixed '-sensor' and TamperSensor first; otherwise
    it is a Lock with the suffix '-lock'.  Battery is among the interfaces
    exactly when the battery status is not 'none'; the model is the type
    tag, the manufacturer 'Ring', the serial number 'Unknown' when the
    record has none. *)
Theorem classify_cases (location : Location.t) (d : RingDevice.t) :
  let data := RingDevice.data d in
  let tag := RingDeviceData.deviceType data in
  match classify vendor location d with
  | None =>
      isDisabled d = true
      ∨ (isSensorTag vendor tag = false ∧ matchesLock tag = false)
  | Some x =>
      isDisabled d = false
      ∧ (if isSensorTag vendor tag
         then Device.type x = ScryptedDeviceType.Sensor
              ∧ Device.nativeId x = RingDevice.id d +:+ "-sensor"
              ∧ head (Device.interfaces x) = Some ScryptedInterface.TamperSensor
         else matchesLock tag = true
              ∧ Device.type x = ScryptedDeviceType.Lock
              ∧ Device.nativeId x = RingDevice.id d +:+ "-lock"
              ∧ head (Device.interfaces x) = Some ScryptedInterface.Lock)
      ∧ (ScryptedInterface.Battery ∈ Device.interfaces x
         ↔ RingDeviceData.batteryStatus data ≠ "none")
      ∧ DeviceInformation.model (Device.info x) = tag
      ∧ DeviceInformation.manufacturer (Device.info x) = "Ring"
      ∧ DeviceInformation.serialNumber (Device.info x)
        = default "Unknown" (RingDeviceData.serialNumber data)
      ∧ Device.providerNativeId x = Location.id location
      ∧ Device.name x = RingDevice.name d
  end.
Proof.
  cbn zeta. unfold classify, switchDeviceType, genericDevice, isDisabled,
    isSensorTag.
  destruct (bool_decide _); [by left|].
  destruct (String.eqb_spec (RingDeviceData.batteryStatus (RingDevice.data d))
              "none") as [Hb|Hb].
  all: repeat (destruct (String.eqb _ _); simpl; try done).
  all: try (repeat split; try done;
            rewrite ?elem_of_cons, ?elem_of_nil; naive_solver).
  all: destruct (matchesLock _); simpl; [|by right].
  all: repeat split; try done;
         rewrite ?elem_of_cons, ?elem_of_nil; naive_solver.
Qed.

Lemma switchDeviceType_ContinueDisabled d :
  switchDeviceType vendor d = ContinueDisabled ↔ isDisabled d = true.
Proof.
  unfold switchDeviceType, isDisabled.
  destruct (bool_decide _); [done|]. by repeat case_match.
Qed.

Lemma classify_accounted location records :
  length (omap (classify vendor location) records)
  + length (ignored vendor records)
  + length (List.filter isDisabled records)
  = length records.
Proof.
  unfold ignored, classify.
  induction records as [|d records IH]; [done|].
  pose proof (switchDeviceType_ContinueDisabled d) as [H1 H2].
  cbn. cbn in IH.
  destruct (switchDeviceType vendor d), (isDisabled d);
    try (by specialize (H1 eq_refl)); try (by specialize (H2 eq_refl));
    cbn; lia.
Qed.

Lemma ignored_disabled records :
  ignored vendor (List.filter isDisabled records) = [].
Proof.
  unfold ignored.
  induction records as [|d records IH]; [done|]. cbn. cbn in IH.
  destruct (isDisabled d) eqn:Hd; [|done]. cbn.
  apply switchDeviceType_ContinueDisabled in Hd. by rewrite Hd.
Qed.

(** X6: a run of discovery accounts for every record once: the published
    descriptors, the lines added to the console and the disabled generic
    records together are as many as the cameras and the generic records.
    Disabled records are dropped without a line on the console. *)
Theorem discoverDevices_accounts (records : list RingDevice.t) (rt : Runtime) :
  let rt' := discoverDevices vendor records rt in
  ∃ manifest,
    last (published rt') = Some manifest
    ∧ DeviceManifest.providerNativeId manifest
      = Location.id (location (controller rt))
    ∧ console rt' = console rt ++ ignored vendor records
    ∧ length (DeviceManifest.devices manifest)
      + length (ignored vendor records)
      + length (List.filter isDisabled records)
      = length (Location.cameras (location (controller rt))) + length records
    ∧ ignored vendor (List.filter isDisabled records) = [].
Proof.
  intros rt'.
  destruct (discoverDevices_closed vendor records rt)
    as (_ & _ & _ & _ & _ & _ & Hpub & Hcon & _).
  fold rt' in Hpub, Hcon. eexists. rewrite Hpub, last_snoc.
  split; [done|]. split; [done|]. split; [done|]. simpl. split.
  - unfold descriptors. rewrite length_app, length_fmap.
    pose proof (classify_accounted (location (controller rt)) records). lia.
  - apply ignored_disabled.
Qed.

Lemma fold_insert_list_to_map {V} (l : list (string * V)) (m : gmap string V) :
  fold_left (λ m kv, <[kv.1 := kv.2]> m) l m = list_to_map (reverse l) ∪ m.
Proof.
  revert m. induction l as [|[k v] l IH]; intros m.
  - cbn. by rewrite (left_id_L ∅ (∪)).
  - cbn [fold_left]. rewrite IH, reverse_cons, list_to_map_app. simpl.
    rewrite insert_empty, <- (assoc_L (∪)).
    by rewrite <- insert_union_singleton_l.
Qed.

Lemma fold_cameras_keyed cameras (m : gmap string LocationRecord) :
  fold_left (λ m camera, <[RingCamera.id camera := IsCamera camera]> m) cameras m
  = fold_left (λ m kv, <[kv.1 := kv.2]> m)
      ((λ camera, (RingCamera.id camera, IsCamera camera)) <$> cameras) m.
Proof.
  revert m. induction cameras as [|c cameras IH]; intros m; simpl; [done|].
  apply IH.
Qed.

Lemma fold_devices_keyed records (m : gmap string LocationRecord) :
  fold_left
    (λ m d, match switchDeviceType vendor d with
            | Break nativeId _ _ => <[nativeId := IsDevice d]> m
            | _ => m
            end) records m
  = fold_left (λ m kv, <[kv.1 := kv.2]> m)
      (omap (λ d, match switchDeviceType vendor d with
                  | Break nativeId _ _ => Some (nativeId, IsDevice d)
                  | _ => None
                  end) records) m.
Proof.
  revert m. induction records as [|d records IH]; intros m; simpl; [done|].
  rewrite IH. by destruct (switchDeviceType vendor d).
Qed.

(** X7: after a run of discovery the index is the map of the calls of
    [set] of that run, cameras first, in which a later call replaces an
    earlier one with the same identifier.  So every entry of the index is a
    record of the run, every identifier set in the run has an entry, and
    when no identifier is set twice each record is found under its own. *)
Theorem discoverDevices_index_last_wins
    (records : list RingDevice.t) (rt : Runtime) :
  let index :=
    JsMap.entries (locationDevices (controller (discoverDevices vendor records rt))) in
  let sets := indexed vendor (location (controller rt)) records in
  index = list_to_map (reverse sets)
  ∧ (∀ k r, index !! k = Some r → (k, r) ∈ sets)
  ∧ (∀ k, k ∈ sets.*1 ↔ is_Some (index !! k))
  ∧ (∀ before k r after,
       sets = before ++ (k, r) :: after → k ∉ after.*1 → index !! k = Some r)
  ∧ (NoDup sets.*1 → ∀ k r, (k, r) ∈ sets → index !! k = Some r).
Proof.
  intros index sets.
  assert (index = list_to_map (reverse sets)) as Hindex.
  { subst index sets.
    destruct (discoverDevices_index vendor records rt) as [-> _].
    destruct (entries_indexDevices vendor records
      (indexCameras (Location.cameras (location (controller rt))) JsMap.new))
      as [-> _].
    destruct (entries_indexCameras (Location.cameras (location (controller rt)))
      (@JsMap.new LocationRecord)) as [-> _].
    rewrite fold_devices_keyed, fold_cameras_keyed, <- fold_left_app.
    rewrite fold_insert_list_to_map. simpl. by rewrite (right_id_L ∅ (∪)). }
  split; [done|]. rewrite Hindex. repeat split.
  - intros k r H. apply elem_of_reverse. by apply elem_of_list_to_map_2.
  - intros H. apply elem_of_dom. rewrite dom_list_to_map_L.
    apply elem_of_list_to_set. by rewrite fmap_reverse, elem_of_reverse.
  - intros H. apply elem_of_dom in H. rewrite dom_list_to_map_L in H.
    apply elem_of_list_to_set in H. by rewrite fmap_reverse, elem_of_reverse in H.
  - intros before k r after Hsets Hk.
    rewrite Hsets, reverse_app, reverse_cons, <- app_assoc, list_to_map_app.
    apply lookup_union_Some_raw. right. split.
    + apply not_elem_of_list_to_map_1. by rewrite fmap_reverse, elem_of_reverse.
    + simpl. by rewrite lookup_insert_eq.
  - intros Hnd k r H. apply elem_of_list_to_map_1.
    + by rewrite fmap_reverse, reverse_Permutation.
    + by apply elem_of_reverse.
Qed.
End GenericDescriptors.

Section EventLoop.
Variable vendor : RingDeviceType.t.
Variable RingCameraDevice_new : string → option LocationRecord → bool.

#[local] Abbreviation getDevice := (getDevice RingCameraDevice_new).
#[local] Abbreviation armSecuritySystem := (armSecuritySystem vendor).
#[local] Abbreviation dispatch := (dispatch vendor RingCameraDevice_new).
#[local] Abbreviation run := (run vendor RingCameraDevice_new).
#[local] Abbreviation reachable := (reachable vendor RingCameraDevice_new).

Lemma settle_None p l : settle p l = None ↔ List.filter p l = [].
Proof.
  induction l as [|a l IH]; simpl; [done|].
  destruct (p a); [done|].
  destruct (settle p l) as [[? ?]|]; [|tauto].
  split; [done|]. intros H. by apply IH in H.
Qed.

Lemma settle_snoc p l x :
  p x = true → ∃ y rest, settle p (l ++ [x]) = Some (y, rest).
Proof.
  intros Hx. induction l as [|a l (y & rest & IH)]; simpl.
  - rewrite Hx. eauto.
  - destruct (p a); [eauto|]. rewrite IH. eauto.
Qed.

(** X8: the panel feed works on its own.  Once the panel is subscribed, an
    emission of the panel starts a query of the current mode, and the answer
    [f] of the vendor is written to the snapshot as a mode-feed emission of
    [f] would be, with no emission of the mode feed; before the panel is
    subscribed, an emission of the panel changes nothing. *)
Theorem panel_feed_recomputes (rt : Runtime) (f : LocationMode)
    (Hpanel : subscribedToPanel rt = true) :
  pending (dispatch rt PanelDataEmitted) = pending rt ++ [PendingLocationMode]
  ∧ controller (dispatch rt PanelDataEmitted) = controller rt
  ∧ securitySystemState
      (controller (run rt [PanelDataEmitted; LocationModeFetched f]))
    = securitySystemState (updateLocationMode f (controller rt))
  ∧ (∀ rt0, subscribedToPanel rt0 = false → dispatch rt0 PanelDataEmitted = rt0).
Proof.
  simpl. rewrite Hpanel. simpl. repeat split.
  - destruct (settle_snoc isPendingLocationMode (pending rt) PendingLocationMode)
      as (y & rest & ->); done.
  - by intros rt0 ->.
Qed.

Lemma run_snapshot_quiet rt events :
  Forall (λ e, reportsMode e = false) events →
  securitySystemState (controller (run rt events))
  = securitySystemState (controller rt).
Proof.
  revert rt. induction events as [|e events IH]; intros rt H; [done|].
  apply Forall_cons in H as [He H]. simpl. rewrite IH by done.
  destruct (dispatch_snapshot vendor RingCameraDevice_new rt e)
    as [Heq|(f & [->| ->] & _)]; done.
Qed.

(** X9: without an alarm base station the constructor starts no query of
    the current mode and forces no snapshot: when it returns, the snapshot is
    the one that line 96 left, which is what the host stored if the mode feed
    replays nothing to the subscription (unknown, if nothing was stored) and
    what [updateLocationMode] writes for the last replayed mode otherwise;
    the snapshot stays so through every event that is neither an emission of
    the mode feed nor the answer to a query started by the panel feed. *)
Theorem constructor_without_base_station
    (plugin : RingPlugin) (location : Location.t)
    (stored : option SecuritySystemState)
    (Hbase : Location.hasAlarmBaseStation location = false) :
  let rt := constructor plugin location stored in
  let atSubscribe := securitySystemState (subscribed plugin location stored) in
  List.filter isPendingLocationMode (pending rt) = []
  ∧ atSubscribe
    = match last (Location.onLocationMode location) with
      | None => stored
      | Some f => securitySystemState (updateLocationMode f (controller rt))
      end
  ∧ securitySystemState (controller rt) = atSubscribe
  ∧ (∀ events,
       Forall (λ e, reportsMode e = false) events →
       securitySystemState (controller (run rt events)) = atSubscribe).
Proof.
  intros rt atSubscribe.
  pose proof (constructor_subscribed plugin location stored) as Hat.
  fold rt atSubscribe in Hat.
  assert (securitySystemState (controller rt) = atSubscribe) as Hsnapshot
    by (subst rt atSubscribe; by rewrite constructor_closed, Hbase).
  split; [by subst rt; rewrite constructor_closed, Hbase|].
  split; [exact Hat|]. split; [done|].
  intros events H. by rewrite run_snapshot_quiet.
Qed.

(** X10: when a query of the current mode rejects, nothing in the class
    handles the rejection: it is left unhandled, and the controller, its
    snapshot included, stays as it was.  A rejection that no query waits for
    changes nothing. *)
Theorem mode_query_rejection_unhandled (rt : Runtime) :
  let rt' := dispatch rt LocationModeRejected in
  controller rt' = controller rt
  ∧ console rt' = console rt ∧ published rt' = published rt
  ∧ match List.filter isPendingLocationMode (pending rt) with
    | [] => rt' = rt
    | _ :: waiting =>
        unhandledRejections rt' = unhandledRejections rt ++ ["getLocationMode"]
        ∧ List.filter isPendingLocationMode (pending rt') = waiting
    end.
Proof.
  simpl. destruct (settle isPendingLocationMode (pending rt))
    as [[x rest]|] eqn:Hs; simpl.
  - apply settle_filter_same in Hs. rewrite Hs. done.
  - apply settle_None in Hs. by rewrite Hs.
Qed.
End EventLoop.

Section EventLoop2.
Variable vendor : RingDeviceType.t.
Variable RingCameraDevice_new : string → option LocationRecord → bool.

#[local] Abbreviation getDevice := (getDevice RingCameraDevice_new).
#[local] Abbreviation armSecuritySystem := (armSecuritySystem vendor).
#[local] Abbreviation dispatch := (dispatch vendor RingCameraDevice_new).
#[local] Abbreviation run := (run vendor RingCameraDevice_new).
#[local] Abbreviation reachable := (reachable vendor RingCameraDevice_new).

Lemma settle_snoc_fresh p l x :
  settle p l = None → p x = true → settle p (l ++ [x]) = Some (x, l).
Proof.
  induction l as [|a l IH]; intros Hl Hx; simpl in *; [by rewrite Hx|].
  destruct (p a); [done|].
  destruct (settle p l) as [[? ?]|] eqn:Hs; [done|].
  by rewrite (IH eq_refl Hx).
Qed.

(** X11: when [getDevices] rejects, the run of [discoverDevices] that waits
    for it has already cleared the index and entered the cameras: the index
    is left with the cameras alone, nothing is published, nothing is written
    to the console, and cache and heap are as before.  An identifier with
    the suffix '-sensor' or '-lock' that is not in the cache and is no
    camera identifier then makes [getDevice] throw. *)
Theorem discoverDevices_rejected (floating : bool) (rt : Runtime)
    (Hidle : settle isPendingDevices (pending rt) = None) :
  let rt' := dispatch (discoverDevices_begin floating rt) DevicesRejected in
  JsMap.entries (locationDevices (controller rt'))
  = list_to_map
      (reverse ((λ camera, (RingCamera.id camera, IsCamera camera))
                  <$> Location.cameras (location (controller rt))))
  ∧ published rt' = published rt ∧ console rt' = console rt
  ∧ pending rt' = pending rt
  ∧ devices (controller rt') = devices (controller rt) ∧ heap rt' = heap rt
  ∧ securitySystemState (controller rt') = securitySystemState (controller rt)
  ∧ unhandledRejections rt'
    = unhandledRejections rt ++ (if floating then ["getDevices"] else [])
  ∧ (∀ nativeId,
       classFor nativeId ≠ RingCameraDevice →
       JsMap.get nativeId (devices (controller rt)) = None →
       nativeId ∉ RingCamera.id <$> Location.cameras (location (controller rt)) →
       getDevice nativeId rt' = (Throws "TypeError", rt')).
Proof.
  intros rt'.
  assert (JsMap.entries (locationDevices (controller rt'))
          = list_to_map
              (reverse ((λ camera, (RingCamera.id camera, IsCamera camera))
                 <$> Location.cameras (location (controller rt))))
          ∧ devices (controller rt') = devices (controller rt)) as [Hindex Hcache].
  { subst rt'. rewrite discoverDevices_begin_closed. simpl.
    rewrite settle_snoc_fresh by done.
    destruct (entries_indexCameras
      (Location.cameras (location (controller rt)))
      (JsMap.clear (locationDevices (controller rt)))) as [He _].
    destruct floating; simpl; rewrite He; simpl;
      by rewrite fold_cameras_keyed, fold_insert_list_to_map,
        (right_id_L ∅ (∪)). }
  split; [done|].
  repeat split; try done;
    try (subst rt'; rewrite discoverDevices_begin_closed; simpl;
         rewrite settle_snoc_fresh by done; by destruct floating).
  - subst rt'. rewrite discoverDevices_begin_closed. simpl.
    rewrite settle_snoc_fresh by done. destruct floating; simpl; [done|].
    by rewrite app_nil_r.
  - intros nativeId Hclass Hnone Hcamera.
    apply getDevice_throws; [by rewrite Hcache|done|].
    unfold JsMap.get. rewrite Hindex.
    apply not_elem_of_list_to_map_1.
    by rewrite fmap_reverse, elem_of_reverse, <- list_fmap_compose.
Qed.

(** *** Commands to the vendor *)

Lemma dispatch_vendorCalls rt e :
  vendorCalls (dispatch rt e)
  = vendorCalls rt
    ++ match e with
       | ArmSecuritySystemCalled mode =>
           match (armSecuritySystem mode rt).1 with
           | SettlesAs call => [call]
           | Resolved => []
           end
       | DisarmSecuritySystemCalled => [disarm]
       | _ => []
       end.
Proof.
  destruct e as [f| | | |f| |records| | |nativeId|id nativeId|mode| |v];
    simpl; rewrite ?app_nil_r; try done; try (by repeat case_match).
  - repeat case_match; try done.
    match goal with |- context [discoverDevices_resume _ ?d ?r ?x] =>
      by destruct (discoverDevices_resume_closed vendor d r x)
        as (_ & _ & _ & _ & _ & -> & _) end.
  - by rewrite discoverDevices_begin_closed.
  - by destruct (getDevice_frame RingCameraDevice_new nativeId rt)
      as (_ & _ & _ & _ & _ & _ & _ & -> & _).
  - unfold armSecuritySystem.
    destruct mode as [[]|v]; simpl; rewrite ?app_nil_r; try done.
    by case_match.
Qed.

(** X12: the vendor receives a command only from [armSecuritySystem] with
    a member of the enum and from [disarmSecuritySystem], one command per
    call: over any events, the log of commands grows by as many commands as
    there are such calls, and keeps what it held.  AwayArmed and HomeArmed
    send arm-away and arm-home without a bypass list, Disarmed sends what
    [disarmSecuritySystem] sends. *)
Theorem vendor_commands_per_call (rt : Runtime) (events : list Event) :
  vendorCalls rt `prefix_of` vendorCalls (run rt events)
  ∧ length (vendorCalls (run rt events))
    = length (vendorCalls rt) + length (List.filter issuesCommand events)
  ∧ (armSecuritySystem (Member AwayArmed) rt).1 = SettlesAs (armAway None)
  ∧ (armSecuritySystem (Member HomeArmed) rt).1 = SettlesAs (armHome None)
  ∧ armSecuritySystem (Member Disarmed) rt = disarmSecuritySystem rt.
Proof.
  split; [|split; [|done]].
  - revert rt. induction events as [|e events IH]; intros rt; [done|].
    simpl. etrans; [|apply IH]. rewrite dispatch_vendorCalls.
    by apply prefix_app_r.
  - revert rt. induction events as [|e events IH]; intros rt.
    { unfold run. cbn. lia. }
    change (run rt (e :: events)) with (run (dispatch rt e) events).
    rewrite IH, dispatch_vendorCalls, length_app.
    destruct e as [f| | | |f| |records| | |nativeId|id nativeId|mode| |v];
      cbn; try lia.
    destruct mode as [[]|?]; cbn; try lia.
    destruct (String.eqb _ _); cbn; lia.
Qed.

(** X13: [armSecuritySystem] does not look at [supportedModes].  With the
    setting "Disabled" no snapshot that [updateLocationMode] writes lists
    NightArmed, and yet arming NightArmed sends arm-home with a bypass list;
    it sends arm-away only for the setting "Away". *)
Theorem night_arming_is_not_gated (rt : Runtime)
    (Hsetting : nightModeBypassAlarmState (plugin (controller rt)) = "Disabled") :
  (∀ f st,
     securitySystemState (updateLocationMode f (controller rt)) = Some st →
     NightArmed ∉ supportedModes st)
  ∧ (armSecuritySystem (Member NightArmed) rt).1
    = SettlesAs (armHome (Some (bypassContactSensors vendor (controller rt))))
  ∧ vendorCalls (dispatch rt (ArmSecuritySystemCalled (Member NightArmed)))
    = vendorCalls rt
      ++ [armHome (Some (bypassContactSensors vendor (controller rt)))].
Proof.
  assert ((armSecuritySystem (Member NightArmed) rt).1
    = SettlesAs (armHome (Some (bypassContactSensors vendor (controller rt)))))
    as Harm.
  { rewrite armSecuritySystem_night, Hsetting. by case_decide. }
  split; [|split; [done|]].
  - intros f st. unfold updateLocationMode. rewrite Hsetting. simpl.
    intros [= <-]. simpl. rewrite !elem_of_cons, elem_of_nil. naive_solver.
  - by rewrite dispatch_vendorCalls, Harm.
Qed.

(** *** The snapshot *)

(** X14: when the host has stored no snapshot, the snapshot of the
    controller, in every state that it reaches, has a mode other than
    NightArmed and [triggered] false: after arming NightArmed the snapshot
    shows the mode that the vendor reports, Home or Away. *)
Theorem snapshot_never_night
    (plugin : RingPlugin) (location : Location.t) (events : list Event) :
  ∀ st,
    securitySystemState
      (controller (run (constructor plugin location None) events)) = Some st →
    mode st ∈ [Disarmed; HomeArmed; AwayArmed] ∧ triggered st = false.
Proof.
  assert (∀ f this st,
    securitySystemState (updateLocationMode f this) = Some st →
    mode st ∈ [Disarmed; HomeArmed; AwayArmed] ∧ triggered st = false) as Hupd.
  { intros f this st. unfold updateLocationMode. simpl. intros [= <-]. simpl.
    split; [|done]. repeat case_match; rewrite !elem_of_cons; tauto. }
  induction events as [|e events IH] using rev_ind.
  - simpl. rewrite constructor_closed. simpl.
    assert (∀ st, securitySystemState (subscribed plugin location None) = Some st →
              mode st ∈ [Disarmed; HomeArmed; AwayArmed] ∧ triggered st = false)
      as Hsub.
    { rewrite (subscribed_snapshot plugin location None
                 {| plugin := plugin; location := location;
                    devices := JsMap.new; locationDevices := JsMap.new;
                    securitySystemState := None |} eq_refl).
      destruct (last (Location.onLocationMode location)); [apply Hupd|done]. }
    destruct (Location.hasAlarmBaseStation location); simpl; [|exact Hsub].
    destruct (securitySystemState (subscribed plugin location None)) eqn:Hs;
      simpl; [exact Hsub|].
    intros st [= <-]. simpl. split; [apply list_elem_of_here|done].
  - rewrite run_snoc.
    destruct (dispatch_snapshot vendor RingCameraDevice_new
                (run (constructor plugin location None) events) e)
      as [->|(f & _ & ->)]; [done|apply Hupd].
Qed.
End EventLoop2.

(** ** Identifiers and construction paths *)

Lemma string_length_app (a b : string) :
  String.length (a +:+ b) = String.length a + String.length b.
Proof. induction a as [|c a IH]; simpl; [done|]. by rewrite IH. Qed.

Lemma substring_all (b : string) : String.substring 0 (String.length b) b = b.
Proof. induction b as [|c b IH]; simpl; [done|]. by rewrite IH. Qed.

Lemma substring_app_suffix (a b : string) :
  String.substring (String.length a) (String.length b) (a +:+ b) = b.
Proof. induction a as [|c a IH]; simpl; [apply substring_all|done]. Qed.

Lemma endsWith_app (a b : string) : endsWith (a +:+ b) b = true.
Proof.
  unfold endsWith. rewrite string_length_app.
  case_decide; [|lia].
  replace (String.length a + String.length b - String.length b)
    with (String.length a) by lia.
  rewrite substring_app_suffix. apply String.eqb_refl.
Qed.

(** A text that ends with [suffix] ends with the last character of it. *)
Lemma endsWith_last (s suffix : string) :
  endsWith s suffix = true → suffix ≠ "" →
  String.get (String.length s - 1) s
  = String.get (String.length suffix - 1) suffix.
Proof.
  unfold endsWith. intros H Hne. case_decide as Hle; [|done].
  apply String.eqb_eq in H.
  assert (0 < String.length suffix) as Hpos by (destruct suffix; simpl; [done|lia]).
  rewrite <- H at 2.
  rewrite String.substring_correct1 by lia. f_equal. lia.
Qed.

Lemma get_app_suffix (a b : string) (n : nat) :
  String.get (n + String.length a) (a +:+ b) = String.get n b.
Proof. symmetry. apply String.append_correct2. Qed.

Lemma classFor_sensor (id : string) : classFor (id +:+ "-sensor") = RingSensor.
Proof. unfold classFor. by rewrite endsWith_app. Qed.

Lemma classFor_lock (id : string) : classFor (id +:+ "-lock") = RingLock.
Proof.
  unfold classFor. rewrite (endsWith_app id "-lock").
  destruct (endsWith (id +:+ "-lock") "-sensor") eqn:H; [|done].
  apply endsWith_last in H; [|done].
  rewrite string_length_app in H. simpl in H.
  replace (String.length id + 5 - 1) with (4 + String.length id) in H by lia.
  by rewrite get_app_suffix in H.
Qed.

Section Cache.
Variable vendor : RingDeviceType.t.
Variable RingCameraDevice_new : string → option LocationRecord → bool.

#[local] Abbreviation getDevice := (getDevice RingCameraDevice_new).
#[local] Abbreviation dispatch := (dispatch vendor RingCameraDevice_new).
#[local] Abbreviation run := (run vendor RingCameraDevice_new).
#[local] Abbreviation reachable := (reachable vendor RingCameraDevice_new).

Lemma classify_suffix location d x :
  classify vendor location d = Some x →
  (Device.type x = ScryptedDeviceType.Sensor
   ∧ Device.nativeId x = RingDevice.id d +:+ "-sensor")
  ∨ (Device.type x = ScryptedDeviceType.Lock
     ∧ Device.nativeId x = RingDevice.id d +:+ "-lock").
Proof.
  unfold classify, switchDeviceType, genericDevice.
  repeat case_match; intros; simplify_eq/=; eauto.
Qed.

(** X15: discovery and the cache fit together.  After a run of
    [discoverDevices], [getDevice] returns an instance for the identifier of
    every descriptor of a generic device of that run: the suffix that
    discovery put on the identifier selects [RingSensor] for a Sensor and
    [RingLock] for a Lock, and the index holds a record for it.  If the cache
    had no instance for the identifier, the instance is new and is built on
    that record. *)
Theorem getDevice_after_discovery
    (records : list RingDevice.t) (rt : Runtime)
    (d : RingDevice.t) (x : Device.t)
    (Hd : d ∈ records)
    (Hx : classify vendor (location (controller rt)) d = Some x) :
  let rt1 := discoverDevices vendor records rt in
  classFor (Device.nativeId x)
  = match Device.type x with
    | ScryptedDeviceType.Lock => RingLock
    | _ => RingSensor
    end
  ∧ ∃ record,
      JsMap.get (Device.nativeId x) (locationDevices (controller rt1))
      = Some record
      ∧ (∃ ref rt2,
           getDevice (Device.nativeId x) rt1 = (Returns (Some ref), rt2))
      ∧ (JsMap.get (Device.nativeId x) (devices (controller rt)) = None →
         (getDevice (Device.nativeId x) rt1).1
         = Returns (Some (length (heap rt)))
         ∧ heap (getDevice (Device.nativeId x) rt1).2
           = heap rt
             ++ [{| class := classFor (Device.nativeId x);
                    instanceNativeId := Device.nativeId x;
                    device := Some record |}]).
Proof.
  intros rt1.
  assert (classFor (Device.nativeId x)
          = match Device.type x with
            | ScryptedDeviceType.Lock => RingLock
            | _ => RingSensor
            end) as Hclass.
  { destruct (classify_suffix _ _ _ Hx) as [[-> ->]|[-> ->]];
      [apply classFor_sensor|apply classFor_lock]. }
  split; [done|].
  assert (classFor (Device.nativeId x) ≠ RingCameraDevice) as Hnocam
    by (rewrite Hclass; by destruct (Device.type x)).
  destruct (discoverDevices_index vendor records rt) as [_ Hdom].
  destruct (discoverDevices_closed vendor records rt)
    as (Hc & Hheap & _).
  fold rt1 in Hdom, Hc, Hheap.
  assert (is_Some (JsMap.get (Device.nativeId x)
                     (locationDevices (controller rt1)))) as [record Hrecord].
  { unfold JsMap.get. apply elem_of_dom. rewrite Hdom.
    apply elem_of_list_to_set, list_elem_of_fmap_2.
    unfold descriptors. apply elem_of_app. right.
    apply list_elem_of_omap. eauto. }
  exists record. split; [done|]. split.
  - by apply (getDevice_returns RingCameraDevice_new _ _ record).
  - intros Hnone.
    assert (JsMap.get (Device.nativeId x) (devices (controller rt1)) = None)
      as Hnone1 by (by rewrite Hc).
    rewrite (getDevice_fresh RingCameraDevice_new _ _ Hnone1), Hrecord.
    unfold new. destruct (classFor (Device.nativeId x)); try done;
      simpl; by rewrite Hheap.
Qed.

(** *** Instances *)

Lemma dispatch_cache_heap rt e :
  (heap (dispatch rt e) = heap rt
   ∧ devices (controller (dispatch rt e)) = devices (controller rt))
  ∨ ∃ nativeId record,
      e = GetDeviceCalled nativeId
      ∧ JsMap.get nativeId (devices (controller rt)) = None
      ∧ heap (dispatch rt e)
        = heap rt ++ [{| class := classFor nativeId;
                         instanceNativeId := nativeId;
                         device := record |}]
      ∧ devices (controller (dispatch rt e))
        = JsMap.set nativeId (length (heap rt)) (devices (controller rt)).
Proof.
  destruct e as [f| | | |f| |records| | |other|id other|mode| |v];
    simpl; try (by left); try (left; by repeat case_match).
  - left. repeat case_match; try done.
    match goal with |- context [discoverDevices_resume _ ?d ?r ?x] =>
      by destruct (discoverDevices_resume_closed vendor d r x)
        as (-> & -> & _) end.
  - left. by rewrite discoverDevices_begin_closed.
  - destruct (JsMap.get other (devices (controller rt))) as [ref'|] eqn:Ho.
    + left. by rewrite (getDevice_cached _ _ _ _ Ho).
    + rewrite getDevice_fresh by done.
      destruct (new _ _ _ _) as [instance|] eqn:Hnew; [|by left].
      apply new_Returns in Hnew as ->. right. by eexists other, _.
  - left. by destruct (armSecuritySystem_frame vendor mode rt) as (-> & -> & _).
Qed.

Lemma dispatch_heap_lookup rt e ref instance :
  heap rt !! ref = Some instance → heap (dispatch rt e) !! ref = Some instance.
Proof.
  intros H.
  destruct (dispatch_cache_heap rt e) as [[-> _]|(? & ? & _ & _ & -> & _)];
    [done|]. by apply lookup_app_l_Some.
Qed.

Lemma run_heap_lookup rt events ref instance :
  heap rt !! ref = Some instance → heap (run rt events) !! ref = Some instance.
Proof.
  revert rt. induction events as [|e events IH]; intros rt H; [done|].
  simpl. apply IH. by apply dispatch_heap_lookup.
Qed.

Lemma run_reachable rt events : reachable rt → reachable (run rt events).
Proof.
  revert rt. induction events as [|e events IH]; intros rt H; [done|].
  simpl. apply IH. by apply reachable_dispatch.
Qed.

(** X16: an instance is never torn down, replaced or rebound.  Whatever
    happens after it has been built (re-discovery with other records,
    [releaseDevice], failed calls), the object stays at its address with the
    vendor record it was built on, and [getDevice] keeps returning it for
    its identifier without building anything. *)
Theorem instances_persist
    (rt : Runtime) (events : list Event) (ref : Ref) (instance : Instance)
    (Hreach : reachable rt) (Hinstance : heap rt !! ref = Some instance) :
  let rt' := run rt events in
  heap rt' !! ref = Some instance
  ∧ getDevice (instanceNativeId instance) rt' = (Returns (Some ref), rt')
  ∧ releaseDevice "" (instanceNativeId instance) rt' = rt'.
Proof.
  intros rt'. split; [by apply run_heap_lookup|]. split; [|done].
  apply getDevice_cached.
  apply (reachable_heap vendor RingCameraDevice_new rt');
    [by apply run_reachable|by apply run_heap_lookup].
Qed.

Lemma reachable_cache rt :
  reachable rt →
  ∀ nativeId ref,
    JsMap.get nativeId (devices (controller rt)) = Some ref →
    ∃ instance, heap rt !! ref = Some instance
                ∧ instanceNativeId instance = nativeId.
Proof.
  revert rt.
  apply (reachable_ind vendor RingCameraDevice_new (λ rt, ∀ nativeId ref,
    JsMap.get nativeId (devices (controller rt)) = Some ref →
    ∃ instance, heap rt !! ref = Some instance
                ∧ instanceNativeId instance = nativeId));
    [intros plugin location stored|intros rt e _ IH].
  - rewrite constructor_closed.
    by destruct (Location.hasAlarmBaseStation location),
         (securitySystemState (subscribed plugin location stored)).
  - intros nativeId ref.
    destruct (dispatch_cache_heap rt e)
      as [[-> ->]|(other & record & _ & _ & -> & ->)]; [apply IH|].
    unfold JsMap.get. simpl. intros H.
    apply lookup_insert_Some in H as [[<- <-]|[_ H]].
    + eexists. split; [apply list_lookup_middle; done|done].
    + destruct (IH _ _ H) as (instance & Hi & Hn).
      exists instance. split; [by apply lookup_app_l_Some|done].
Qed.

Lemma reachable_classes rt :
  reachable rt →
  Forall (λ instance, class instance = classFor (instanceNativeId instance))
    (heap rt).
Proof.
  revert rt.
  apply (reachable_ind vendor RingCameraDevice_new (λ rt,
    Forall (λ instance, class instance = classFor (instanceNativeId instance))
      (heap rt))); [intros plugin location stored|intros rt e _ IH].
  - by rewrite constructor_closed.
  - destruct (dispatch_cache_heap rt e)
      as [[-> _]|(other & record & _ & _ & -> & _)]; [done|].
    apply Forall_app. split; [done|]. by apply Forall_singleton.
Qed.

(** X17: in every state of the controller the cache and the heap describe
    the same instances: the cache maps an identifier to an address exactly
    when the object at that address was built for that identifier; no two
    objects were built for the same identifier; every object has the class
    that the suffix of its identifier selects; and the cache has as many
    entries as there are objects. *)
Theorem cache_matches_heap (rt : Runtime) (Hreach : reachable rt) :
  (∀ nativeId ref,
     JsMap.get nativeId (devices (controller rt)) = Some ref
     ↔ ∃ instance, heap rt !! ref = Some instance
                   ∧ instanceNativeId instance = nativeId)
  ∧ NoDup (instanceNativeId <$> heap rt)
  ∧ Forall (λ instance, class instance = classFor (instanceNativeId instance))
      (heap rt)
  ∧ dom (JsMap.entries (devices (controller rt)))
    = list_to_set (instanceNativeId <$> heap rt).
Proof.
  assert (∀ nativeId ref,
     JsMap.get nativeId (devices (controller rt)) = Some ref
     ↔ ∃ instance, heap rt !! ref = Some instance
                   ∧ instanceNativeId instance = nativeId) as Hiff.
  { intros nativeId ref. split; [by apply reachable_cache|].
    intros (instance & Hi & <-).
    by apply (reachable_heap vendor RingCameraDevice_new rt). }
  split; [done|]. split; [by eapply reachable_heap_NoDup|].
  split; [by apply reachable_classes|].
  apply set_eq. intros nativeId.
  rewrite elem_of_dom, elem_of_list_to_set, list_elem_of_fmap.
  unfold JsMap.get in Hiff. split.
  - intros [ref Href]. apply Hiff in Href as (instance & Hi & <-).
    exists instance. split; [done|]. by eapply list_elem_of_lookup_2.
  - intros (instance & -> & Hin). apply list_elem_of_lookup in Hin as [ref Href].
    exists ref. apply Hiff. eauto.
Qed.
End Cache.

Section Windows.
Variable vendor : RingDeviceType.t.
Variable RingCameraDevice_new : string → option LocationRecord → bool.

#[local] Abbreviation getDevice := (getDevice RingCameraDevice_new).
#[local] Abbreviation dispatch := (dispatch vendor RingCameraDevice_new).
#[local] Abbreviation run := (run vendor RingCameraDevice_new).
#[local] Abbreviation reachable := (reachable vendor RingCameraDevice_new).

(** X18: between the call of [discoverDevices] and the answer of
    [getDevices] the index holds the cameras alone.  In that window
    [getDevice] throws for an identifier with the suffix '-sensor' or '-lock'
    that is not yet in the cache and is no camera identifier, even if the
    index held its record before the call; an identifier that is in the
    cache is served as before. *)
Theorem getDevice_during_discovery
    (floating : bool) (rt : Runtime) (nativeId : string)
    (Hclass : classFor nativeId ≠ RingCameraDevice)
    (Hcamera :
       nativeId ∉ RingCamera.id <$> Location.cameras (location (controller rt))) :
  let rt' := discoverDevices_begin floating rt in
  JsMap.get nativeId (locationDevices (controller rt')) = None
  ∧ match JsMap.get nativeId (devices (controller rt)) with
    | None => getDevice nativeId rt' = (Throws "TypeError", rt')
    | Some ref => getDevice nativeId rt' = (Returns (Some ref), rt')
    end.
Proof.
  intros rt'.
  assert (JsMap.get nativeId (locationDevices (controller rt')) = None) as Hindex.
  { subst rt'. rewrite discoverDevices_begin_closed. unfold JsMap.get. simpl.
    destruct (entries_indexCameras
      (Location.cameras (location (controller rt)))
      (JsMap.clear (locationDevices (controller rt)))) as [-> _].
    simpl. rewrite fold_cameras_keyed, fold_insert_list_to_map,
      (right_id_L ∅ (∪)).
    apply not_elem_of_list_to_map_1.
    by rewrite fmap_reverse, elem_of_reverse, <- list_fmap_compose. }
  split; [done|].
  assert (devices (controller rt') = devices (controller rt)) as Hcache
    by (subst rt'; by rewrite discoverDevices_begin_closed).
  destruct (JsMap.get nativeId (devices (controller rt))) as [ref|] eqn:Hc.
  - apply getDevice_cached. by rewrite Hcache.
  - apply getDevice_throws; [by rewrite Hcache|done|done].
Qed.


(** X20: the last report wins, whatever its age.  In every state of the
    controller an emission of the mode feed is written to the snapshot; and
    the answer to a query of the mode that was already pending when the
    mode feed emitted is written over that emission when it arrives. *)
Theorem last_report_wins (rt : Runtime) (f stale : LocationMode)
    (Hreach : reachable rt)
    (Hquery : List.filter isPendingLocationMode (pending rt) ≠ []) :
  securitySystemState (controller (dispatch rt (LocationModeEmitted f)))
  = securitySystemState (updateLocationMode f (controller rt))
  ∧ securitySystemState
      (controller (run rt [LocationModeEmitted f; LocationModeFetched stale]))
    = securitySystemState (updateLocationMode stale (controller rt)).
Proof.
  pose proof (reachable_subscribedToLocationMode vendor RingCameraDevice_new
                rt Hreach) as Hsub.
  simpl. rewrite Hsub. simpl. split; [done|].
  destruct (settle isPendingLocationMode (pending rt)) as [[x rest]|] eqn:Hs;
    [done|].
  by apply settle_None in Hs.
Qed.
End Windows.

(** ** Concrete runs for the further properties *)

(** A panel that has resolved. *)
Lemma panel_feed_recomputes_witness :
  let rt :=
    run sampleTypes sampleCameraNew
      (constructor samplePlugin (sampleLocation []) None)
      [SecurityPanelResolved] in
  subscribedToPanel rt = true
  ∧ securitySystemState
      (controller
         (run sampleTypes sampleCameraNew rt
            [PanelDataEmitted; LocationModeFetched "home"]))
    = securitySystemState (updateLocationMode "home" (controller rt)).
Proof.
  intros rt. split; [reflexivity|].
  exact (proj1 (proj2 (proj2
    (panel_feed_recomputes sampleTypes sampleCameraNew rt "home" eq_refl)))).
Defined.

(** A location without a base station, first with a feed that replays
    nothing, then with one that replays 'away'. *)
Lemma constructor_without_base_station_witness :
  let quiet :=
    {| Location.id := "cabin"; Location.cameras := [];
       Location.hasAlarmBaseStation := false;
       Location.onLocationMode := [] |} in
  let replaying :=
    {| Location.id := "cabin"; Location.cameras := [];
       Location.hasAlarmBaseStation := false;
       Location.onLocationMode := ["away"] |} in
  Location.hasAlarmBaseStation quiet = false
  ∧ Location.hasAlarmBaseStation replaying = false
  ∧ securitySystemState (controller (constructor samplePlugin quiet None))
    = securitySystemState (subscribed samplePlugin quiet None)
  ∧ securitySystemState (controller (constructor samplePlugin replaying None))
    = securitySystemState (subscribed samplePlugin replaying None).
Proof.
  intros quiet replaying. split; [reflexivity|]. split; [reflexivity|].
  split.
  - exact (proj1 (proj2 (proj2
      (constructor_without_base_station sampleTypes sampleCameraNew
         samplePlugin quiet None eq_refl)))).
  - exact (proj1 (proj2 (proj2
      (constructor_without_base_station sampleTypes sampleCameraNew
         samplePlugin replaying None eq_refl)))).
Defined.

(** A re-discovery whose [getDevices] rejects. *)
Lemma discoverDevices_rejected_witness :
  let s1 := sampleDevice "1" "sensor.contact" (Some "ok") "full" None in
  let rt :=
    run sampleTypes sampleCameraNew
      (constructor samplePlugin (sampleLocation []) None)
      [DevicesFetched [s1]] in
  let rt' :=
    dispatch sampleTypes sampleCameraNew
      (discoverDevices_begin false rt) DevicesRejected in
  settle isPendingDevices (pending rt) = None
  ∧ JsMap.entries (locationDevices (controller rt')) = ∅
  ∧ published rt' = published rt.
Proof.
  intros s1 rt rt'.
  assert (settle isPendingDevices (pending rt) = None) as Hidle by reflexivity.
  split; [exact Hidle|].
  destruct (discoverDevices_rejected sampleTypes sampleCameraNew false rt Hidle)
    as (Hindex & Hpublished & _).
  exact (conj Hindex Hpublished).
Defined.

(** The setting "Disabled". *)
Lemma night_arming_is_not_gated_witness :
  let rt :=
    constructor {| nightModeBypassAlarmState := "Disabled" |}
      (sampleLocation []) None in
  nightModeBypassAlarmState (plugin (controller rt)) = "Disabled"
  ∧ (armSecuritySystem sampleTypes (Member NightArmed) rt).1
    = SettlesAs
        (armHome (Some (bypassContactSensors sampleTypes (controller rt)))).
Proof.
  intros rt. split; [reflexivity|].
  exact (proj1 (proj2
    (night_arming_is_not_gated sampleTypes sampleCameraNew rt eq_refl))).
Defined.

(** One contact sensor, discovered and then looked up. *)
Lemma getDevice_after_discovery_witness :
  let s1 := sampleDevice "1" "sensor.contact" (Some "ok") "full" None in
  let rt := constructor samplePlugin (sampleLocation []) None in
  let x :=
    genericDevice (sampleLocation []) s1 "1-sensor" ScryptedDeviceType.Sensor
      [ScryptedInterface.TamperSensor; ScryptedInterface.EntrySensor] in
  s1 ∈ [s1]
  ∧ classify sampleTypes (location (controller rt)) s1 = Some x
  ∧ classFor (Device.nativeId x) = RingSensor.
Proof.
  intros s1 rt x.
  assert (s1 ∈ [s1]) as Hd by apply list_elem_of_here.
  assert (classify sampleTypes (location (controller rt)) s1 = Some x)
    as Hx by reflexivity.
  split; [exact Hd|]. split; [exact Hx|].
  exact (proj1
    (getDevice_after_discovery sampleTypes sampleCameraNew [s1] rt s1 x Hd Hx)).
Defined.

(** An instance, and a re-discovery that finds no device any more. *)
Lemma instances_persist_witness :
  let s1 := sampleDevice "1" "sensor.contact" (Some "ok") "full" None in
  let instance :=
    {| class := RingSensor; instanceNativeId := "1-sensor";
       device := Some (IsDevice s1) |} in
  let rt :=
    run sampleTypes sampleCameraNew
      (constructor samplePlugin (sampleLocation []) None)
      [DevicesFetched [s1]; GetDeviceCalled "1-sensor"] in
  let rt' :=
    run sampleTypes sampleCameraNew rt
      [DiscoverDevicesCalled; DevicesFetched []] in
  heap rt !! 0 = Some instance
  ∧ heap rt' !! 0 = Some instance
  ∧ getDevice sampleCameraNew "1-sensor" rt' = (Returns (Some 0), rt').
Proof.
  intros s1 instance rt rt'.
  assert (reachable sampleTypes sampleCameraNew rt) as Hreach.
  { exists samplePlugin, (sampleLocation []), None,
      [DevicesFetched [s1]; GetDeviceCalled "1-sensor"]. reflexivity. }
  assert (heap rt !! 0 = Some instance) as Hinstance by reflexivity.
  split; [exact Hinstance|].
  destruct (instances_persist sampleTypes sampleCameraNew rt
              [DiscoverDevicesCalled; DevicesFetched []] 0 instance
              Hreach Hinstance) as (H1 & H2 & _).
  exact (conj H1 H2).
Defined.

(** The same state: one instance, one entry of the cache. *)
Lemma cache_matches_heap_witness :
  let s1 := sampleDevice "1" "sensor.contact" (Some "ok") "full" None in
  let rt :=
    run sampleTypes sampleCameraNew
      (constructor samplePlugin (sampleLocation []) None)
      [DevicesFetched [s1]; GetDeviceCalled "1-sensor"] in
  reachable sampleTypes sampleCameraNew rt
  ∧ NoDup (instanceNativeId <$> heap rt).
Proof.
  intros s1 rt.
  assert (reachable sampleTypes sampleCameraNew rt) as Hreach.
  { exists samplePlugin, (sampleLocation []), None,
      [DevicesFetched [s1]; GetDeviceCalled "1-sensor"]. reflexivity. }
  split; [exact Hreach|].
  exact (proj1 (proj2
    (cache_matches_heap sampleTypes sampleCameraNew rt Hreach))).
Defined.

(** A sensor that was indexed, looked up while a re-discovery waits. *)
Lemma getDevice_during_discovery_witness :
  let s1 := sampleDevice "1" "sensor.contact" (Some "ok") "full" None in
  let rt :=
    run sampleTypes sampleCameraNew
      (constructor samplePlugin (sampleLocation []) None)
      [DevicesFetched [s1]] in
  let rt' := discoverDevices_begin false rt in
  classFor "1-sensor" ≠ RingCameraDevice
  ∧ JsMap.get "1-sensor" (locationDevices (controller rt)) = Some (IsDevice s1)
  ∧ JsMap.get "1-sensor" (locationDevices (controller rt')) = None
  ∧ getDevice sampleCameraNew "1-sensor" rt' = (Throws "TypeError", rt').
Proof.
  intros s1 rt rt'.
  assert (classFor "1-sensor" ≠ RingCameraDevice) as Hclass by (by vm_compute).
  assert ("1-sensor"
          ∉ RingCamera.id <$> Location.cameras (location (controller rt)))
    as Hcamera by apply not_elem_of_nil.
  split; [exact Hclass|]. split; [reflexivity|].
  exact (getDevice_during_discovery sampleCameraNew false rt "1-sensor"
           Hclass Hcamera).
Defined.

(** The query that the constructor starts is pending when the mode feed
    emits. *)
Lemma last_report_wins_witness :
  let rt := constructor samplePlugin (sampleLocation []) None in
  List.filter isPendingLocationMode (pending rt) ≠ []
  ∧ securitySystemState
      (controller
         (run sampleTypes sampleCameraNew rt
            [LocationModeEmitted "away"; LocationModeFetched "home"]))
    = securitySystemState (updateLocationMode "home" (controller rt)).
Proof.
  intros rt.
  assert (reachable sampleTypes sampleCameraNew rt) as Hreach.
  { exists samplePlugin, (sampleLocation []), None, []. reflexivity. }
  assert (List.filter isPendingLocationMode (pending rt) ≠ []) as Hquery
    by (by vm_compute).
  split; [exact Hquery|].
  exact (proj2
    (last_report_wins sampleTypes sampleCameraNew rt "away" "home"
       Hreach Hquery)).
Defined.

(** A night arming, then the report of the mode feed. *)
Lemma snapshot_never_night_witness :
  let events :=
    [ArmSecuritySystemCalled (Member NightArmed); LocationModeEmitted "away"] in
  let st :=
    {| mode := AwayArmed; triggered := false;
       supportedModes := [Disarmed; AwayArmed; HomeArmed; NightArmed] |} in
  securitySystemState
    (controller
       (run sampleTypes sampleCameraNew
          (constructor samplePlugin (sampleLocation []) None) events))
  = Some st
  ∧ mode st ∈ [Disarmed; HomeArmed; AwayArmed] ∧ triggered st = false.
Proof.
  intros events st.
  assert (securitySystemState
            (controller
               (run sampleTypes sampleCameraNew
                  (constructor samplePlugin (sampleLocation []) None) events))
          = Some st) as Hst by reflexivity.
  split; [exact Hst|].
  exact (snapshot_never_night sampleTypes sampleCameraNew
           samplePlugin (sampleLocation []) events st Hst).
Defined.
